(** * x.infer: the JoyCaption adapter (src/xinfer/transformers/joycaption.py)

    A shallow embedding of the adapter class [JoyCaption]: construction with
    its dtype check, single and batched preprocessing (image-token
    expansion, right padding, attention masks), and the two inference entry
    points with their keyword passthrough, prompt trimming and statistics.

    The tokenizer, the Llava model, the image pipeline and the model hub
    are collaborators outside the file; they are carried as records of
    functions, fallible wherever the Python call can raise. *)

From Stdlib Require Import ZArith Lia Ascii String.
From stdpp Require Import base gmap list strings.

Set Default Proof Using "Type".

(** ** Python values, exceptions and results *)

Module Py.

(** The exception classes the adapter can observe.  [ValueError] is the one
    the source raises itself, with its message; the others come from the
    interpreter or from torch, and their messages here only say what went
    wrong.  [ExternalError] stands for whatever a collaborator raises. *)
Inductive exn : Type :=
  | ValueError (msg : string)
  | TypeError (msg : string)
  | IndexError (msg : string)
  | RuntimeError (msg : string)
  | ExternalError (cls msg : string).

Inductive Result (A : Type) : Type :=
  | Ok (a : A)
  | Raise (e : exn).
Arguments Ok {A} a.
Arguments Raise {A} e.

#[export] Instance Result_ret : MRet Result := λ A a, Ok a.
#[export] Instance Result_bind : MBind Result := λ A B f r,
  match r with
  | Ok a => f a
  | Raise e => Raise e
  end.

Definition is_Ok {A} (r : Result A) : Prop :=
  match r with Ok _ => True | Raise _ => False end.

(** [for x in l: ...] over a fallible body that collects one result per
    element, stopping at the first exception. *)
Fixpoint mapM {A B} (f : A → Result B) (l : list A) : Result (list B) :=
  match l with
  | [] => Ok []
  | x :: l' =>
      y ← f x;
      ys ← mapM f l';
      mret (y :: ys)
  end.

(** [l * n] on a list: [n] copies of [l] end to end, none when [n <= 0]. *)
Definition list_repeat {A} (l : list A) (n : Z) : list A :=
  concat (replicate (Z.to_nat n) l).

(** [max(...)] over the sizes of a sequence; an empty argument raises. *)
Definition max_of (l : list nat) : Result nat :=
  match l with
  | [] => Raise (ValueError "max() arg is an empty sequence")
  | x :: l' => Ok (foldl Nat.max x l')
  end.

(** [l[0]] *)
Definition first_item {A} (l : list A) : Result A :=
  match l with
  | [] => Raise (IndexError "index 0 is out of bounds")
  | x :: _ => Ok x
  end.

(** [str.isspace] on one character; a character is a code point below 256. *)
Definition is_space (c : ascii) : bool :=
  let n := N_of_ascii c in
  ((9 <=? n) && (n <=? 13) || (28 <=? n) && (n <=? 32)
   || (n =? 133) || (n =? 160))%N.

Fixpoint lstrip (s : string) : string :=
  match s with
  | EmptyString => EmptyString
  | String c s' => if is_space c then lstrip s' else s
  end.

(** [rstrip] drops the whitespace run at the end: a whitespace character is
    kept exactly when something that is kept follows it. *)
Fixpoint rstrip (s : string) : string :=
  match s with
  | EmptyString => EmptyString
  | String c s' =>
      match rstrip s' with
      | EmptyString => if is_space c then EmptyString else String c EmptyString
      | r => String c r
      end
  end.

(** [s.strip()] *)
Definition strip (s : string) : string := rstrip (lstrip s).

End Py.
Import Py.

(** ** Tensors *)

Module Torch.

(** The members of [torch.dtype] the adapter names. *)
Inductive torch_dtype : Type := float32 | float16 | bfloat16.

#[export] Instance torch_dtype_eq_dec : EqDecision torch_dtype.
Proof. solve_decision. Defined.

(** A preprocessed image: a float tensor of shape 3 x 384 x 384.  Its
    entries are floating point and play no part below, so the tensor is
    carried as a handle. *)
Definition Pixels : Type := N.

(** One-dimensional and two-dimensional [torch.long] tensors, as rows. *)
Abbreviation Row := (list Z).
Abbreviation Matrix := (list (list Z)).

Definition int64_min : Z := - 2 ^ 63.
Definition int64_max : Z := 2 ^ 63 - 1.

Definition fits_int64 (z : Z) : bool :=
  (int64_min <=? z)%Z && (z <=? int64_max)%Z.

(** [torch.tensor(l, dtype=torch.long)]: refuses a Python int outside the
    64-bit range. *)
Definition tensor_long (l : list Z) : Result Row :=
  if forallb fits_int64 l then Ok l
  else Raise (RuntimeError "Overflow when unpacking long").

(** [t.unsqueeze(0)] *)
Definition unsqueeze0 {A} (t : A) : list A := [t].

(** [t.size(0)] of a row *)
Definition size0 (t : Row) : nat := length t.

(** [t.shape[1]] of a matrix with at least one row *)
Definition shape1 (t : Matrix) : nat :=
  match t with
  | [] => 0
  | r :: _ => length r
  end.

Definition zeros (n m : nat) : Matrix := replicate n (replicate m 0%Z).
Definition ones (m : nat) : Row := replicate m 1%Z.
Definition ones_like (t : Matrix) : Matrix := map (map (λ _, 1%Z)) t.

(** [row[:k] = src]: the target slice holds [min k (len row)] cells; the
    source has exactly that many, or one cell that is broadcast. *)
Definition assign_prefix (row : Row) (k : nat) (src : Row) : Result Row :=
  if decide (length src = Nat.min k (length row))
  then Ok (src ++ drop k row)
  else match src with
       | [v] => Ok (replicate (Nat.min k (length row)) v ++ drop k row)
       | _ => Raise (RuntimeError "shape mismatch in slice assignment")
       end.

(** [row[k:] = v] with a scalar [v] *)
Definition fill_from (row : Row) (k : nat) (v : Z) : Row :=
  take k row ++ replicate (length row - k) v.

(** [t[i, :k] = src] *)
Definition assign_row_prefix (t : Matrix) (i k : nat) (src : Row)
    : Result Matrix :=
  match t !! i with
  | None => Raise (IndexError "row index out of range")
  | Some row => row' ← assign_prefix row k src; mret (<[i := row']> t)
  end.

(** [torch.stack(l)]: at least one tensor, all of one shape.  [shape]
    measures what can differ between the stacked tensors. *)
Definition stack {A} (shape : A → nat) (l : list A) : Result (list A) :=
  match l with
  | [] => Raise (RuntimeError "stack expects a non-empty TensorList")
  | x :: l' =>
      if forallb (λ y, Nat.eqb (shape y) (shape x)) l' then Ok l
      else Raise (RuntimeError "stack expects each tensor to be equal size")
  end.

End Torch.
Import Torch.

(** ** Keyword arguments *)

(** Values that travel as keyword arguments. *)
Inductive value : Type :=
  | VNone
  | VBool (b : bool)
  | VInt (n : Z)
  | VStr (s : string)
  | VLong (t : list (list Z))
  | VPixels (p : list Pixels)
  | VObject (handle : N).

(** A call [f(k1=v1, ..., kn=vn, **extra)]: the keywords written out at the
    call site and the unpacked dictionary must not share a key; the first
    written keyword that [extra] repeats raises [TypeError]. *)
Definition call_keywords (explicit : list (string * value))
    (extra : gmap string value) : Result (gmap string value) :=
  match filter (λ kv, is_Some (extra !! kv.1)) explicit with
  | [] => Ok (list_to_map explicit ∪ extra)
  | (k, _) :: _ => Raise (TypeError k)
  end.

(** ** The collaborators *)

(** One turn of the conversation handed to the chat template.  [content] is
    the caller's prompt, which defaults to [None]. *)
Record Turn : Type := mkTurn {
  role : string;
  content : option string
}.

(** [self.tokenizer]: the three calls the adapter makes, each with the flags
    the call site passes. *)
Record Tokenizer : Type := mkTokenizer {
  apply_chat_template :
    list Turn → ∀ (tokenize add_generation_prompt : bool), Result string;
  encode :
    string → ∀ (add_special_tokens truncation : bool), Result (list Z);
  decode :
    Row → ∀ (skip_special_tokens clean_up_tokenization_spaces : bool),
    Result string
}.

(** [self.model.config] *)
Record LlavaConfig : Type := mkConfig {
  image_token_index : Z;
  image_seq_length : Z
}.

(** [self.model]: its configuration and [generate].  Generation samples, so
    its answer may differ from call to call: the second argument counts the
    generation calls made before this one. *)
Record Llava : Type := mkLlava {
  config : LlavaConfig;
  generate : gmap string value → nat → Result Matrix
}.

(** What lies outside the adapter: the image pipeline of PIL and
    torchvision (open, convert to RGB, resize to 384 x 384, scale, normalize,
    cast), the hub that [from_pretrained] reads, the move of the loaded model
    and of a tensor to a device, and the entry into the inference-mode and
    autocast scopes. *)
Record Runtime : Type := mkRuntime {
  image_pipeline : string → torch_dtype → Result Pixels;
  tokenizer_from_pretrained : string → ∀ (use_fast : bool), Result Tokenizer;
  llava_from_pretrained : string → gmap string value → Result Llava;
  model_to : Llava → string → torch_dtype → Result Llava;
  device_ready : string → Result unit;
  execution_scope : string → torch_dtype → Result unit
}.

(** ** The adapter instance and the state it changes *)

(** The fields of [self] that stay fixed once [__init__] has returned. *)
Record JoyCaption : Type := mkJoyCaption {
  model_id : string;
  device : string;
  dtype : torch_dtype;
  tokenizer : Tokenizer;
  model : Llava
}.

(** Modelled from the spec: the statistics object of [BaseModel], which is
    defined in [xinfer/models.py].  It keeps a running inference count,
    increased by the number of completed inferences, and the observed
    inference time; time itself is not modelled, only how many timing scopes
    have closed. *)
Record Stats : Type := mkStats {
  num_inferences : Z;
  timed_scopes : nat
}.

Definition new_stats : Stats := {| num_inferences := 0; timed_scopes := 0 |}.

(** Calls that reach a collaborator, in the order they are made: the two
    loaders, the generation capability, and the counter of the statistics
    object. *)
Inductive event : Type :=
  | EvLoadTokenizer (id : string)
  | EvLoadModel (id : string) (kwargs : gmap string value)
  | EvGenerate (kwargs : gmap string value)
  | EvUpdateInferenceCount (n : Z).

Record World : Type := mkWorld {
  stats : Stats;
  events : list event
}.

(** Stateful code: a world goes in, a result or an exception comes out
    together with the world as the call left it. *)
Definition M (A : Type) : Type := World → Result A * World.

#[export] Instance M_ret : MRet M := λ A a w, (Ok a, w).
#[export] Instance M_bind : MBind M := λ A B f m w,
  match m w with
  | (Ok a, w') => f a w'
  | (Raise e, w') => (Raise e, w')
  end.

Definition lift {A} (r : Result A) : M A := λ w, (r, w).

(** The three ways the adapter changes the world. *)
Definition log_event (e : event) (w : World) : World :=
  {| stats := stats w; events := events w ++ [e] |}.

Definition add_inferences (n : Z) (w : World) : World :=
  {| stats := {| num_inferences := num_inferences (stats w) + n;
                 timed_scopes := timed_scopes (stats w) |};
     events := events w |}.

Definition close_timing_scope (w : World) : World :=
  {| stats := {| num_inferences := num_inferences (stats w);
                 timed_scopes := S (timed_scopes (stats w)) |};
     events := events w |}.

Definition emit (e : event) : M unit := λ w, (Ok (), log_event e w).

Definition generate_calls (w : World) : list (gmap string value) :=
  omap (λ e, match e with EvGenerate kw => Some kw | _ => None end) (events w).

(** The arguments of the calls of [update_inference_count] so far. *)
Definition count_updates (w : World) : list Z :=
  omap (λ e, match e with EvUpdateInferenceCount n => Some n | _ => None end)
       (events w).

(** Modelled from the spec: [stats.update_inference_count(n)] of
    [xinfer/models.py] adds [n] to the running count.  The call itself is
    recorded with its argument. *)
Definition update_inference_count (n : Z) : M unit :=
  λ w, (Ok (), add_inferences n (log_event (EvUpdateInferenceCount n) w)).

(** Modelled from the spec: [with stats.track_inference_time(): body] of
    [xinfer/models.py], a scope around [body] that feeds the observed time
    when it closes, whether [body] returned or raised. *)
Definition track_inference_time {A} (body : M A) : M A :=
  λ w, let '(r, w') := body w in (r, close_timing_scope w').

(** ** The adapter *)

Module Adapter.

(** *** Construction (lines 16-34) *)

Definition dtype_map : gmap string torch_dtype :=
  {[ "float32" := float32; "float16" := float16; "bfloat16" := bfloat16 ]}.

(** Modelled from the spec: [BaseModel.__init__(model_id, device, dtype)] of
    [xinfer/models.py] stores its three arguments and gives the instance a
    fresh statistics object.  The three fields are set where [__init__]
    below builds the record. *)
Definition BaseModel_init : M unit :=
  λ w, (Ok (), {| stats := new_stats; events := events w |}).

(** [load_model]: the tokenizer, then the model, moved to the device and
    dtype; [.eval()] hands the model back. *)
Definition load_model (rt : Runtime) (model_id device : string)
    (dt : torch_dtype)
    (kwargs : gmap string value) : M (Tokenizer * Llava) :=
  _ ← emit (EvLoadTokenizer model_id);
  tok ← lift (tokenizer_from_pretrained rt model_id true);
  _ ← emit (EvLoadModel model_id kwargs);
  m ← lift (llava_from_pretrained rt model_id kwargs);
  m ← lift (model_to rt m device dt);
  mret (tok, m).

Definition __init__ (rt : Runtime) (model_id device dtype : string)
    (kwargs : gmap string value) : M JoyCaption :=
  match dtype_map !! dtype with
  | None =>
      lift (Raise (ValueError
        "dtype must be one of 'float32', 'float16', or 'bfloat16'"))
  | Some dt =>
      _ ← BaseModel_init;
      '(tok, m) ← load_model rt model_id device dt kwargs;
      mret {| model_id := model_id; device := device; dtype := dt;
              tokenizer := tok; model := m |}
  end.

(** *** Rendering and image-token expansion (lines 46-76 and 131-150) *)

Definition system_content : string := "You are a helpful image captioner.".

Definition conversation (prompt : option string) : list Turn :=
  [ {| role := "system"; content := Some system_content |};
    {| role := "user"; content := prompt |} ].

(** One round of the loop over [convo_tokens]: [extend] with the repeated
    image token, or [append] the token. *)
Definition expand_step (cfg : LlavaConfig) (input_tokens : list Z)
    (token : Z) : list Z :=
  if decide (token = image_token_index cfg)
  then input_tokens
       ++ list_repeat [image_token_index cfg] (image_seq_length cfg)
  else input_tokens ++ [token].

Definition expand_image_tokens (cfg : LlavaConfig) (convo_tokens : list Z)
    : list Z :=
  foldl (expand_step cfg) [] convo_tokens.

(** The conversation is built, formatted, tokenized and expanded by the same
    statements in [preprocess] and in the loop of [preprocess_batch]. *)
Definition render_tokens (self : JoyCaption) (prompt : option string)
    : Result (list Z) :=
  convo_string ←
    apply_chat_template (tokenizer self) (conversation prompt) false true;
  convo_tokens ← encode (tokenizer self) convo_string false false;
  mret (expand_image_tokens (config (model self)) convo_tokens).

(** *** [preprocess] (lines 36-81) *)

Definition preprocess (rt : Runtime) (self : JoyCaption) (image : string)
    (prompt : option string) : Result (list Pixels * Matrix * Matrix) :=
  px ← image_pipeline rt image (dtype self);
  let image := unsqueeze0 px in
  input_tokens ← render_tokens self prompt;
  row ← tensor_long input_tokens;
  let input_ids := unsqueeze0 row in
  let attention_mask := ones_like input_ids in
  mret (image, input_ids, attention_mask).

(** *** [preprocess_batch] (lines 117-168) *)

(** One round of the loop over [zip(images, prompts)]. *)
Definition preprocess_pair (rt : Runtime) (self : JoyCaption)
    (pair : string * string) : Result (Pixels * Row) :=
  px ← image_pipeline rt pair.1 (dtype self);
  input_tokens ← render_tokens self (Some pair.2);
  input_ids ← tensor_long input_tokens;
  mret (px, input_ids).

(** [l[-1] = f(l[-1])] on a non-empty list *)
Definition alter_last {A} (f : A → A) (l : list A) : list A :=
  alter f (length l - 1) l.

(** The loop over [enumerate(input_ids_list)], from index [i] on. *)
Fixpoint pad_loop (max_length : nat) (i : nat) (rest : list Row)
    (padded_input_ids : Matrix) (attention_masks : list Row)
    : Result (Matrix * list Row) :=
  match rest with
  | [] => Ok (padded_input_ids, attention_masks)
  | ids :: rest' =>
      padded_input_ids ←
        assign_row_prefix padded_input_ids i (size0 ids) ids;
      let attention_masks := attention_masks ++ [ones max_length] in
      let attention_masks :=
        alter_last (λ m, fill_from m (size0 ids) 0) attention_masks in
      pad_loop max_length (S i) rest' padded_input_ids attention_masks
  end.

Definition preprocess_batch (rt : Runtime) (self : JoyCaption)
    (images prompts : list string)
    : Result (list Pixels * Matrix * Matrix) :=
  processed ← mapM (preprocess_pair rt self) (zip images prompts);
  let processed_images := processed.*1 in
  let input_ids_list := processed.*2 in
  max_length ← max_of (size0 <$> input_ids_list);
  let padded_input_ids := zeros (length input_ids_list) max_length in
  '(padded_input_ids, attention_masks) ←
    pad_loop max_length 0 input_ids_list padded_input_ids [];
  images_tensor ← stack (λ _, 0) processed_images;
  attention_mask_tensor ← stack size0 attention_masks;
  mret (images_tensor, padded_input_ids, attention_mask_tensor).

(** *** Generation, trimming and decoding (lines 83-115 and 170-207) *)

(** [if "max_new_tokens" not in generate_kwargs: ... = 300] *)
Definition default_max_new_tokens (generate_kwargs : gmap string value)
    : gmap string value :=
  if decide (is_Some (generate_kwargs !! "max_new_tokens"))
  then generate_kwargs
  else <["max_new_tokens" := VInt 300]> generate_kwargs.

(** The generation capability answers a call with keywords [kw]; the call
    is recorded whether it returns or raises. *)
Definition run_generate (self : JoyCaption) (kw : gmap string value)
    : M Matrix :=
  λ w, (generate (model self) kw (length (generate_calls w)),
        log_event (EvGenerate kw) w).

(** [t.to(device)]: the tensor with its entries as they are, when the
    device takes it. *)
Definition to_device {A} (rt : Runtime) (t : A) (device : string)
    : Result A :=
  _ ← device_ready rt device;
  mret t.

(** [self.model.generate(input_ids=..., ..., use_cache=True,
    **generate_kwargs)]: the written keyword values are evaluated in order,
    then the caller's options are merged in. *)
Definition written_keywords (input_ids : Matrix)
    (pixel_values : list Pixels) (attention_mask : Matrix)
    : list (string * value) :=
  [ ("input_ids", VLong input_ids);
    ("pixel_values", VPixels pixel_values);
    ("attention_mask", VLong attention_mask);
    ("do_sample", VBool true);
    ("suppress_tokens", VNone);
    ("use_cache", VBool true) ].

Definition call_generate (rt : Runtime) (self : JoyCaption)
    (input_ids : Matrix) (pixel_values : list Pixels)
    (attention_mask : Matrix) (generate_kwargs : gmap string value)
    : M Matrix :=
  input_ids ← lift (to_device rt input_ids (device self));
  pixel_values ← lift (to_device rt pixel_values (device self));
  attention_mask ← lift (to_device rt attention_mask (device self));
  kw ← lift (call_keywords
               (written_keywords input_ids pixel_values attention_mask)
               generate_kwargs);
  run_generate self kw.

(** Trim off the prompt, decode, strip. *)
Definition caption_of (self : JoyCaption) (prompt_width : nat)
    (generate_ids : Row) : Result string :=
  let generate_ids := drop prompt_width generate_ids in
  caption ← decode (tokenizer self) generate_ids true false;
  mret (strip caption).

Definition infer (rt : Runtime) (self : JoyCaption) (image : string)
    (prompt : option string) (generate_kwargs : gmap string value)
    : M string :=
  caption ← track_inference_time (
    '(input_ids, generate_ids) ← (
      _ ← lift (execution_scope rt (device self) (dtype self));
      '(image, input_ids, attention_mask) ←
        lift (preprocess rt self image prompt);
      let generate_kwargs := default_max_new_tokens generate_kwargs in
      out ← call_generate rt self input_ids image attention_mask
              generate_kwargs;
      generate_ids ← lift (first_item out);
      mret (input_ids, generate_ids));
    lift (caption_of self (shape1 input_ids) generate_ids));
  _ ← update_inference_count 1;
  mret caption.

Definition infer_batch (rt : Runtime) (self : JoyCaption)
    (images prompts : list string) (generate_kwargs : gmap string value)
    : M (list string) :=
  '(images, captions) ← track_inference_time (
    '(images, input_ids, generate_ids) ← (
      _ ← lift (execution_scope rt (device self) (dtype self));
      '(images, input_ids, attention_mask) ←
        lift (preprocess_batch rt self images prompts);
      let generate_kwargs := default_max_new_tokens generate_kwargs in
      generate_ids ←
        call_generate rt self input_ids images attention_mask
          generate_kwargs;
      mret (images, input_ids, generate_ids));
    captions ← lift (mapM (caption_of self (shape1 input_ids)) generate_ids);
    mret (images, captions));
  _ ← update_inference_count (Z.of_nat (length images));
  mret captions.

End Adapter.

(** ** The registry *)

Module Registry.

(** Modelled from the spec: the capability enumeration [ModelInputOutput] of
    [xinfer/model_registry.py], a closed set of modality pairs.  The adapter
    names [IMAGE_TEXT_TO_TEXT]; the members it does not name are told apart
    by their names. *)
Inductive ModelInputOutput : Type :=
  | IMAGE_TEXT_TO_TEXT
  | OTHER_MODALITY (name : string).


Inductive Resolved (C : Type) : Type :=
  | Found (constructor : C)
  | NotFoundError (identifier : string).
Arguments Found {C} constructor.
Arguments NotFoundError {C} identifier.

Section registry.
Context {C : Type}.

(** Modelled from the spec: a registry entry of
    [xinfer/model_registry.py], the tuple of identifier, backend-kind
    tag, capability and constructor reference. *)
Record RegistryEntry : Type := mkEntry {
  identifier : string;
  backend_kind : string;
  capability : ModelInputOutput;
  constructor : C
}.

(** Modelled from the spec: [register_model(identifier, backend_kind,
    capability)] of [xinfer/model_registry.py] gives a decorator that,
    applied to a class, inserts the entry into the process-wide registry
    and returns the class.  The registry is keyed by identifier and a
    later registration of an identifier replaces the earlier one. *)
Definition register_model (identifier backend_kind : string)
    (capability : ModelInputOutput) (cls : C)
    (registry : gmap string RegistryEntry)
    : C * gmap string RegistryEntry :=
  (cls, <[identifier := mkEntry identifier backend_kind capability cls]>
          registry).

(** Modelled from the spec: resolution by identifier of
    [xinfer/model_registry.py] hands back the registered constructor and
    fails with [NotFoundError] on an absent identifier. *)
Definition resolve (registry : gmap string RegistryEntry)
    (identifier : string) : Resolved C :=
  match registry !! identifier with
  | Some entry => Found (constructor entry)
  | None => NotFoundError identifier
  end.

(** The registry after a run of decorated class definitions, starting
    from the empty registry of a fresh process. *)
Definition registry_after (defs : list RegistryEntry)
    : gmap string RegistryEntry :=
  foldl (λ registry d,
           (register_model (identifier d) (backend_kind d) (capability d)
                           (constructor d) registry).2)
        ∅ defs.
End registry.
Arguments RegistryEntry C : clear implicits.

(** An adapter class, as what calling it runs. *)
Definition AdapterClass : Type :=
  Runtime → string → string → string → gmap string value → M JoyCaption.

Definition joycaption_id : string :=
  "fancyfeast/llama-joycaption-alpha-two-hf-llava".

(** Lines 10-15: the decorated class statement.  The name [JoyCaption] is
    bound to what the decorator returns. *)
Definition decorate_JoyCaption
    (registry : gmap string (RegistryEntry AdapterClass))
    : AdapterClass * gmap string (RegistryEntry AdapterClass) :=
  register_model joycaption_id "transformers" IMAGE_TEXT_TO_TEXT
                 Adapter.__init__ registry.

End Registry.

(** ** A small instance to run the definitions on *)

Module Toy.

Definition codes (s : string) : list Z :=
  (λ c, Z.of_N (N_of_ascii c)) <$> list_ascii_of_string s.

Definition text (t : list Z) : string :=
  string_of_list_ascii ((λ z, ascii_of_N (Z.to_N z)) <$> t).

(** The template puts the image marker [I] in front of the user's text; a
    token is the code of a character, and [I] (73) is the image token. *)
Definition toy_tokenizer : Tokenizer := {|
  apply_chat_template turns _ _ :=
    Ok ("I" ++ default "" (content (default (mkTurn "" None) (last turns))))
       %string;
  encode s _ _ := Ok (codes s);
  decode t skip _ :=
    Ok (text (if skip then filter (λ z, z ≠ 73%Z) t else t))
|}.

(** Generation echoes every prompt row and adds the tokens of [ ok]; asked
    for two return sequences, it answers every row twice. *)
Definition toy_llava : Llava := {|
  config := {| image_token_index := 73; image_seq_length := 3 |};
  generate kw _ :=
    match kw !! "input_ids" with
    | Some (VLong ids) =>
        let out := (λ r, r ++ codes " ok") <$> ids in
        match kw !! "num_return_sequences" with
        | Some (VInt 2) => Ok (out ≫= λ r, [r; r])
        | _ => Ok out
        end
    | _ => Raise (ExternalError "TypeError" "input_ids")
    end
|}.

(** A model that generates no new token. *)
Definition echo_llava : Llava := {|
  config := {| image_token_index := 73; image_seq_length := 3 |};
  generate kw _ :=
    match kw !! "input_ids" with
    | Some (VLong ids) => Ok ids
    | _ => Raise (ExternalError "TypeError" "input_ids")
    end
|}.

(** Every path opens as image number 1, except the empty path. *)
Definition toy_runtime : Runtime := {|
  image_pipeline path _ :=
    if decide (path = "") then Raise (ExternalError "FileNotFoundError" path)
    else Ok 1%N;
  tokenizer_from_pretrained _ _ := Ok toy_tokenizer;
  llava_from_pretrained _ _ := Ok toy_llava;
  model_to m _ _ := Ok m;
  device_ready _ := Ok ();
  execution_scope _ _ := Ok ()
|}.

Definition toy_self : JoyCaption := {|
  model_id := Registry.joycaption_id;
  device := "cpu";
  dtype := float32;
  tokenizer := toy_tokenizer;
  model := toy_llava
|}.

Definition echo_self : JoyCaption := {|
  model_id := Registry.joycaption_id;
  device := "cpu";
  dtype := float32;
  tokenizer := toy_tokenizer;
  model := echo_llava
|}.

Definition w0 : World := {| stats := new_stats; events := [] |}.

End Toy.

(** ** Reference descriptions

    The behaviour the specification words, written down directly; the
    properties below compare the adapter's code with them. *)

Module Reference.

(** What one token of the rendered conversation turns into: [n] copies of
    the placeholder [p] in its place, or the token itself. *)
Definition expanded_token (p n : Z) (token : Z) : list Z :=
  if decide (token = p) then replicate (Z.to_nat n) p else [token].

(** A row padded on the right to [width] with the filler id 0. *)
Definition padded_row (width : nat) (ids : Row) : Row :=
  ids ++ replicate (width - length ids) 0%Z.

(** As many ones as the row has tokens, then zeros up to [width]. *)
Definition mask_row (width : nat) (ids : Row) : Row :=
  replicate (length ids) 1%Z ++ replicate (width - length ids) 0%Z.

(** The keywords the adapter writes out itself in its generation call. *)
Definition reserved_keywords : list string :=
  ["input_ids"; "pixel_values"; "attention_mask";
   "do_sample"; "suppress_tokens"; "use_cache"].

(** What a generation call is to receive, given the caller's options: the
    caller's [max_new_tokens] or else 300, sampling on, no suppressed
    tokens, the cache on. *)
Definition options_as_specified (caller received : gmap string value)
    : Prop :=
  received !! "max_new_tokens"
    = Some (default (VInt 300) (caller !! "max_new_tokens"))
  ∧ received !! "do_sample" = Some (VBool true)
  ∧ received !! "suppress_tokens" = Some VNone
  ∧ received !! "use_cache" = Some (VBool true).

(** The trimming the batched path does not do: row [i] cut at example
    [i]'s own length before padding. *)
Definition captions_by_own_length (self : JoyCaption) (lengths : list nat)
    (generate_ids : Matrix) : Result (list string) :=
  mapM (λ nr, Adapter.caption_of self nr.1 nr.2) (zip lengths generate_ids).

End Reference.

(** * Properties *)

Import Adapter Reference.

(** ** The result and state monads *)

Lemma bind_Ok_inv {A B} (f : A → Result B) (r : Result A) (b : B) :
  (r ≫= f) = Ok b → ∃ a, r = Ok a ∧ f a = Ok b.
Proof. destruct r as [a|e]; [by exists a | done]. Qed.

Lemma run_bind {A B} (f : A → M B) (m : M A) (w : World) :
  (m ≫= f) w =
  match m w with
  | (Ok a, w') => f a w'
  | (Raise e, w') => (Raise e, w')
  end.
Proof. done. Qed.

(** Unfold the plumbing of both monads down to matches on results. *)
Ltac run_M :=
  unfold mbind, M_bind, Result_bind, mret, M_ret, Result_ret, lift, emit,
    BaseModel_init, update_inference_count, track_inference_time, log_event;
  simpl.

Lemma mapM_Forall2 {A B} (f : A → Result B) (l : list A) (k : list B) :
  mapM f l = Ok k ↔ Forall2 (λ x y, f x = Ok y) l k.
Proof.
  revert k. induction l as [|x l IH]; intros k; simpl.
  - split; [intros [= <-]; constructor | by inversion 1].
  - split.
    + intros H. apply bind_Ok_inv in H as (y & Hy & H).
      apply bind_Ok_inv in H as (ys & Hys & [= <-]).
      constructor; [done | by apply IH].
    + inversion 1 as [|? y ? ys Hy Hys]; subst.
      rewrite Hy. simpl. apply IH in Hys. by rewrite Hys.
Qed.

Lemma mapM_length {A B} (f : A → Result B) (l : list A) (k : list B) :
  mapM f l = Ok k → length k = length l.
Proof.
  intros H. apply mapM_Forall2 in H. symmetry. by eapply Forall2_length.
Qed.

(** ** Image-token expansion *)

Section expansion.
Variable cfg : LlavaConfig.

Lemma list_repeat_singleton {A} (x : A) (n : Z) :
  list_repeat [x] n = replicate (Z.to_nat n) x.
Proof.
  unfold list_repeat. induction (Z.to_nat n) as [|m IH]; simpl; [done|].
  by rewrite IH.
Qed.

Lemma expand_step_app (acc : list Z) (token : Z) :
  expand_step cfg acc token =
  acc ++ expanded_token (image_token_index cfg) (image_seq_length cfg) token.
Proof.
  unfold expand_step, expanded_token.
  case_decide; [by rewrite list_repeat_singleton | done].
Qed.

Lemma expand_loop_app (acc tokens : list Z) :
  foldl (expand_step cfg) acc tokens =
  acc ++ (tokens ≫=
          expanded_token (image_token_index cfg) (image_seq_length cfg)).
Proof.
  revert acc. induction tokens as [|t tokens IH]; intros acc; simpl.
  - by rewrite app_nil_r.
  - rewrite IH, expand_step_app. by rewrite <- app_assoc.
Qed.

Lemma expand_image_tokens_bind (tokens : list Z) :
  expand_image_tokens cfg tokens =
  tokens ≫= expanded_token (image_token_index cfg) (image_seq_length cfg).
Proof. unfold expand_image_tokens. by rewrite expand_loop_app. Qed.

Lemma expand_image_tokens_app (l1 l2 : list Z) :
  expand_image_tokens cfg (l1 ++ l2) =
  expand_image_tokens cfg l1 ++ expand_image_tokens cfg l2.
Proof. rewrite !expand_image_tokens_bind. apply bind_app. Qed.

Lemma expand_image_tokens_length (tokens : list Z) :
  (0 ≤ image_seq_length cfg)%Z →
  Z.of_nat (length (expand_image_tokens cfg tokens)) =
  (Z.of_nat (length tokens)
   + Z.of_nat (length (filter (λ t, t = image_token_index cfg) tokens))
     * (image_seq_length cfg - 1))%Z.
Proof.
  intros HN. rewrite expand_image_tokens_bind.
  induction tokens as [|t tokens IH]; [done|].
  rewrite bind_cons, length_app, Nat2Z.inj_add, IH.
  unfold expanded_token. rewrite filter_cons.
  case_decide; simpl length.
  - rewrite length_replicate. lia.
  - lia.
Qed.

Lemma filter_replicate_none {A} (P : A → Prop) `{∀ x, Decision (P x)}
    (x : A) (n : nat) :
  ¬ P x → filter P (replicate n x) = [].
Proof.
  intros Hx. induction n as [|n IH]; [done|].
  simpl. by rewrite filter_cons, decide_False.
Qed.

Lemma expand_image_tokens_others (tokens : list Z) :
  filter (λ t, t ≠ image_token_index cfg) (expand_image_tokens cfg tokens) =
  filter (λ t, t ≠ image_token_index cfg) tokens.
Proof.
  rewrite expand_image_tokens_bind.
  induction tokens as [|t tokens IH]; [done|].
  rewrite bind_cons, filter_app, IH, filter_cons.
  unfold expanded_token. case_decide as Ht.
  - rewrite decide_False by tauto.
    rewrite filter_replicate_none by tauto. done.
  - rewrite decide_True by done. by rewrite filter_cons, decide_True.
Qed.

End expansion.

Lemma render_tokens_Ok (self : JoyCaption) (prompt : option string)
    (convo_string : string) (convo_tokens : list Z) :
  apply_chat_template (tokenizer self) (conversation prompt) false true
    = Ok convo_string →
  encode (tokenizer self) convo_string false false = Ok convo_tokens →
  render_tokens self prompt =
  Ok (expand_image_tokens (config (model self)) convo_tokens).
Proof.
  intros H1 H2. unfold render_tokens. by rewrite H1; simpl; rewrite H2.
Qed.

Lemma map_const_replicate {A B} (b : B) (l : list A) :
  map (λ _, b) l = replicate (length l) b.
Proof. induction l as [|x l IH]; [done|]. simpl. by rewrite IH. Qed.

Lemma preprocess_inv (rt : Runtime) (self : JoyCaption) (image : string)
    (prompt : option string) (px : list Pixels) (ids mask : Matrix) :
  preprocess rt self image prompt = Ok (px, ids, mask) →
  ∃ p row,
    image_pipeline rt image (dtype self) = Ok p
    ∧ render_tokens self prompt = Ok row
    ∧ forallb fits_int64 row = true
    ∧ px = [p] ∧ ids = [row] ∧ mask = [replicate (length row) 1%Z].
Proof.
  unfold preprocess. intros H.
  apply bind_Ok_inv in H as (p & Hp & H).
  apply bind_Ok_inv in H as (row & Hrow & H).
  apply bind_Ok_inv in H as (row' & Hfit & H).
  unfold tensor_long in Hfit.
  destruct (forallb fits_int64 row) eqn:Hall; [|done].
  injection Hfit as <-. injection H as <- <- <-.
  exists p, row. repeat split; try done.
  unfold ones_like, unsqueeze0. simpl. by rewrite map_const_replicate.
Qed.

Lemma preprocess_pair_inv (rt : Runtime) (self : JoyCaption)
    (image text : string) (p : Pixels) (ids : Row) :
  preprocess_pair rt self (image, text) = Ok (p, ids) →
  image_pipeline rt image (dtype self) = Ok p
  ∧ render_tokens self (Some text) = Ok ids
  ∧ forallb fits_int64 ids = true.
Proof.
  unfold preprocess_pair. simpl. intros H.
  apply bind_Ok_inv in H as (p' & Hp & H).
  apply bind_Ok_inv in H as (row & Hrow & H).
  apply bind_Ok_inv in H as (row' & Hfit & H).
  unfold tensor_long in Hfit.
  destruct (forallb fits_int64 row) eqn:Hall; [|done].
  injection Hfit as <-. by injection H as <- <-.
Qed.

(** C1. Image-token expansion.  Let the rendered conversation tokenize to
    [convo_tokens], with [k] occurrences of the placeholder id, and let the
    configured image sequence length [N] be a length (not negative).  Then
    the expansion that [preprocess] and [preprocess_batch] run yields a
    sequence of length [len convo_tokens + k * (N - 1)]; it is
    [convo_tokens] with every placeholder replaced, where it stands, by [N]
    copies of the placeholder id and every other token kept; and its
    non-placeholder tokens are those of [convo_tokens] in the same order.
    Put by occurrence: around a placeholder, what stands before it and what
    stands after it are expanded on their own, with [N] placeholder ids in
    between.  It is the token row [preprocess] returns and the row each
    round of the loop of [preprocess_batch] produces. *)
Theorem image_token_expansion (rt : Runtime) (self : JoyCaption)
    (prompt : option string) (convo_string : string)
    (convo_tokens : list Z) :
  let p := image_token_index (config (model self)) in
  let N := image_seq_length (config (model self)) in
  let k := length (filter (λ t, t = p) convo_tokens) in
  (0 ≤ N)%Z →
  apply_chat_template (tokenizer self) (conversation prompt) false true
    = Ok convo_string →
  encode (tokenizer self) convo_string false false = Ok convo_tokens →
  ∃ input_tokens : list Z,
    render_tokens self prompt = Ok input_tokens
    ∧ input_tokens = expand_image_tokens (config (model self)) convo_tokens
    ∧ Z.of_nat (length input_tokens)
      = (Z.of_nat (length convo_tokens) + Z.of_nat k * (N - 1))%Z
    ∧ input_tokens = (convo_tokens ≫= expanded_token p N)
    ∧ (∀ before after : list Z,
         convo_tokens = before ++ p :: after →
         input_tokens
         = expand_image_tokens (config (model self)) before
           ++ replicate (Z.to_nat N) p
           ++ expand_image_tokens (config (model self)) after)
    ∧ filter (λ t, t ≠ p) input_tokens = filter (λ t, t ≠ p) convo_tokens
    ∧ (∀ image px ids mask,
         preprocess rt self image prompt = Ok (px, ids, mask) →
         ids = [input_tokens])
    ∧ (∀ image text px ids,
         prompt = Some text →
         preprocess_pair rt self (image, text) = Ok (px, ids) →
         ids = input_tokens).
Proof.
  intros p N k HN Htemplate Hencode.
  pose proof (render_tokens_Ok self prompt _ _ Htemplate Hencode) as Hrender.
  eexists. split; [exact Hrender|]. split; [done|].
  split; [by apply expand_image_tokens_length|].
  split; [apply expand_image_tokens_bind|].
  split.
  { intros before after ->.
    rewrite (expand_image_tokens_app _ before (p :: after)). f_equal.
    rewrite (expand_image_tokens_app _ [p] after). f_equal.
    rewrite expand_image_tokens_bind. simpl. unfold expanded_token.
    fold p N. by rewrite decide_True, app_nil_r. }
  split; [apply expand_image_tokens_others|].
  split.
  - intros image px ids mask H.
    apply preprocess_inv in H as (q & row & _ & Hrow & _ & _ & -> & _).
    rewrite Hrender in Hrow. by injection Hrow as <-.
  - intros image text px ids -> H.
    apply preprocess_pair_inv in H as (_ & Hrow & _).
    rewrite Hrender in Hrow. by injection Hrow as <-.
Qed.

(** The toy tokenizer renders the prompt [aIb] with two placeholders. *)
Lemma image_token_expansion_witness :
  ∃ input_tokens : list Z,
    render_tokens Toy.toy_self (Some "aIb") = Ok input_tokens
    ∧ input_tokens = [73; 73; 73; 97; 73; 73; 73; 98]%Z
    ∧ Z.of_nat (length input_tokens) = (4 + 2 * (3 - 1))%Z.
Proof.
  destruct (image_token_expansion Toy.toy_runtime Toy.toy_self (Some "aIb")
              "IaIb" [73; 97; 73; 98]%Z)
    as (toks & Hrender & Hexp & Hlen & _); [done | done | done |].
  exists toks. split; [exact Hrender|]. split; [by rewrite Hexp|].
  exact Hlen.
Defined.

(** ** The single-example attention mask *)

(** C8. Whenever [preprocess] returns, the token ids are one row, exactly
    the expanded tokens of the rendered conversation with nothing appended;
    the attention mask is one row of the same length and holds only ones. *)
Theorem preprocess_mask_all_ones (rt : Runtime) (self : JoyCaption)
    (image : string) (prompt : option string) (px : list Pixels)
    (ids mask : Matrix) :
  preprocess rt self image prompt = Ok (px, ids, mask) →
  ∃ row : Row,
    render_tokens self prompt = Ok row
    ∧ ids = [row]
    ∧ mask = [replicate (length row) 1%Z]
    ∧ mask = ones_like ids
    ∧ length mask = length ids
    ∧ Forall2 (λ r m, length m = length r) ids mask
    ∧ Forall (Forall (λ m, m = 1%Z)) mask.
Proof.
  intros H. apply preprocess_inv in H as (q & row & _ & Hrow & _ & _ & -> & ->).
  exists row. repeat split; try done.
  - unfold ones_like. simpl. by rewrite map_const_replicate.
  - repeat constructor. by rewrite length_replicate.
  - repeat constructor. apply Forall_replicate. done.
Qed.

Lemma preprocess_mask_all_ones_witness :
  ∃ row : Row,
    render_tokens Toy.toy_self (Some "ab") = Ok row
    ∧ [[73; 73; 73; 97; 98]]%Z = [row]
    ∧ [[1; 1; 1; 1; 1]]%Z = [replicate (length row) 1%Z]
    ∧ [[1; 1; 1; 1; 1]]%Z = ones_like [[73; 73; 73; 97; 98]]%Z
    ∧ length [[1; 1; 1; 1; 1]]%Z = length [[73; 73; 73; 97; 98]]%Z
    ∧ Forall2 (λ r m : list Z, length m = length r)
        [[73; 73; 73; 97; 98]]%Z [[1; 1; 1; 1; 1]]%Z
    ∧ Forall (Forall (λ m, m = 1%Z)) [[1; 1; 1; 1; 1]]%Z.
Proof.
  apply (preprocess_mask_all_ones Toy.toy_runtime Toy.toy_self "cat.jpg"
           (Some "ab") [1%N]).
  reflexivity.
Defined.

(** ** Batched padding *)

Lemma foldl_max_max_list (a : nat) (l : list nat) :
  foldl Nat.max a l = max_list (a :: l).
Proof.
  revert a. induction l as [|b l IH]; intros a; simpl.
  - lia.
  - rewrite IH. simpl. lia.
Qed.

Lemma alter_last_snoc {A} (f : A → A) (l : list A) (x : A) :
  alter_last f (l ++ [x]) = l ++ [f x].
Proof.
  unfold alter_last. rewrite length_app. simpl.
  replace (length l + 1 - 1) with (length l + 0) by lia.
  by rewrite alter_app_r.
Qed.

Lemma assign_prefix_zeros (width : nat) (ids : Row) :
  length ids ≤ width →
  assign_prefix (replicate width 0%Z) (length ids) ids
  = Ok (padded_row width ids).
Proof.
  intros Hle. unfold assign_prefix.
  rewrite length_replicate, decide_True by lia.
  by rewrite drop_replicate.
Qed.

Lemma fill_from_ones (width : nat) (ids : Row) :
  length ids ≤ width →
  fill_from (ones width) (size0 ids) 0 = mask_row width ids.
Proof.
  intros Hle. unfold fill_from, ones, size0, mask_row.
  rewrite take_replicate, length_replicate.
  by replace (Nat.min (length ids) width) with (length ids) by lia.
Qed.

(** The padding loop, entered at row [length filled] with the rows above
    already written and zero rows below. *)
Lemma pad_loop_spec (width : nat) (rest : list Row) :
  ∀ (filled : Matrix) (masks : list Row),
    Forall (λ ids, length ids ≤ width) rest →
    pad_loop width (length filled) rest
      (filled ++ replicate (length rest) (replicate width 0%Z)) masks
    = Ok (filled ++ (padded_row width <$> rest),
          masks ++ (mask_row width <$> rest)).
Proof.
  induction rest as [|ids rest IH]; intros filled masks Hle.
  - simpl. by rewrite !app_nil_r.
  - apply Forall_cons in Hle as [Hids Hrest]. simpl.
    unfold assign_row_prefix.
    rewrite list_lookup_middle by done.
    unfold size0 at 1. rewrite assign_prefix_zeros by done. simpl.
    rewrite insert_app_r_alt by done. rewrite Nat.sub_diag. simpl.
    rewrite alter_last_snoc, fill_from_ones by done.
    specialize (IH (filled ++ [padded_row width ids])
                   (masks ++ [mask_row width ids]) Hrest).
    rewrite length_app in IH. simpl in IH.
    replace (length filled + 1) with (S (length filled)) in IH by lia.
    rewrite <- !app_assoc in IH. simpl in IH. exact IH.
Qed.

Lemma mask_row_length (width : nat) (ids : Row) :
  length ids ≤ width → length (mask_row width ids) = width.
Proof.
  intros H. unfold mask_row. rewrite length_app, !length_replicate. lia.
Qed.

Lemma padded_row_length (width : nat) (ids : Row) :
  length ids ≤ width → length (padded_row width ids) = width.
Proof.
  intros H. unfold padded_row. rewrite length_app, length_replicate. lia.
Qed.

Lemma stack_same_shape {A} (shape : A → nat) (l : list A) (n : nat) :
  l ≠ [] → Forall (λ x, shape x = n) l → stack shape l = Ok l.
Proof.
  intros Hne Hall. destruct l as [|x l]; [done|].
  apply Forall_cons in Hall as [Hx Hl]. unfold stack.
  replace (forallb _ l) with true; [done|].
  symmetry. apply forallb_forall. intros y Hy.
  apply Nat.eqb_eq. rewrite Hx.
  rewrite Forall_forall in Hl. apply Hl. by apply list_elem_of_In.
Qed.

Lemma rows_le_max (rows : list Row) :
  Forall (λ ids, length ids ≤ max_list (length <$> rows)) rows.
Proof.
  apply Forall_forall. intros ids Hin.
  apply max_list_elem_of_le. by apply list_elem_of_fmap_2.
Qed.

(** What [preprocess_batch] returns once every pair went through the
    per-example steps. *)
Lemma preprocess_batch_Ok (rt : Runtime) (self : JoyCaption)
    (images prompts : list string) (processed : list (Pixels * Row)) :
  mapM (preprocess_pair rt self) (zip images prompts) = Ok processed →
  processed ≠ [] →
  preprocess_batch rt self images prompts
  = Ok (processed.*1,
        padded_row (max_list (length <$> processed.*2)) <$> processed.*2,
        mask_row (max_list (length <$> processed.*2)) <$> processed.*2).
Proof.
  intros Hdone Hne. unfold preprocess_batch. rewrite Hdone. simpl.
  set (rows := processed.*2).
  assert (rows ≠ []) as Hrows by (subst rows; by destruct processed).
  assert (max_of (size0 <$> rows) = Ok (max_list (length <$> rows))) as ->.
  { destruct rows as [|r rows']; [done|]. simpl.
    by rewrite foldl_max_max_list. }
  simpl. set (width := max_list (length <$> rows)).
  pose proof (pad_loop_spec width rows [] [] (rows_le_max rows)) as Hloop.
  simpl in Hloop. unfold zeros. rewrite Hloop. simpl.
  rewrite (stack_same_shape _ (processed.*1) 0);
    [|by destruct processed | by apply Forall_true].
  simpl. rewrite (stack_same_shape _ _ width); [done | by destruct rows |].
  apply Forall_fmap. eapply Forall_impl; [apply rows_le_max|].
  intros ids Hle. by apply mask_row_length.
Qed.

(** C2. Batched padding.  Let every pair of a non-empty batch go through the
    per-example steps, giving the rows [rows] in input order.  Then
    [preprocess_batch] returns the images in that order, a token matrix
    whose row [i] is [rows[i]] followed by zeros, and a mask whose row [i]
    is [len rows[i]] ones followed by zeros; every row of both has the
    width [max (len rows[0]) ... (len rows[k-1])], which one of the rows
    attains. *)
Theorem preprocess_batch_padding (rt : Runtime) (self : JoyCaption)
    (images prompts : list string) (processed : list (Pixels * Row)) :
  let rows := processed.*2 in
  let width := max_list (length <$> rows) in
  mapM (preprocess_pair rt self) (zip images prompts) = Ok processed →
  processed ≠ [] →
  preprocess_batch rt self images prompts
  = Ok (processed.*1, padded_row width <$> rows, mask_row width <$> rows)
  ∧ Forall2 (λ pair d, preprocess_pair rt self pair = Ok d)
      (zip images prompts) processed
  ∧ (∃ ids, ids ∈ rows ∧ length ids = width)
  ∧ (∀ (i : nat) (ids : Row),
       rows !! i = Some ids →
       length ids ≤ width
       ∧ (padded_row width <$> rows) !! i
         = Some (ids ++ replicate (width - length ids) 0%Z)
       ∧ (mask_row width <$> rows) !! i
         = Some (replicate (length ids) 1%Z
                 ++ replicate (width - length ids) 0%Z)
       ∧ length (padded_row width ids) = width
       ∧ length (mask_row width ids) = width).
Proof.
  intros rows width Hdone Hne.
  split; [by apply preprocess_batch_Ok|].
  split; [by apply mapM_Forall2|].
  split.
  - assert (length <$> rows ≠ []) as Hlen
      by (subst rows; by destruct processed).
    apply max_list_elem_of in Hlen.
    apply list_elem_of_fmap in Hlen as (ids & Heq & Hin). by exists ids.
  - intros i ids Hi.
    assert (length ids ≤ width) as Hle.
    { pose proof (rows_le_max rows) as Hall. rewrite Forall_forall in Hall.
      apply Hall. by eapply list_elem_of_lookup_2. }
    split; [done|].
    rewrite !list_lookup_fmap, Hi. simpl.
    split; [done|]. split; [done|].
    split; [by apply padded_row_length | by apply mask_row_length].
Qed.

(** Three images and two prompts of different lengths: two rows, width 6. *)
Lemma preprocess_batch_padding_witness :
  Adapter.preprocess_batch Toy.toy_runtime Toy.toy_self
    ["a.jpg"; "b.jpg"] ["a"; "abc"]
  = Ok ([1%N; 1%N],
        [[73; 73; 73; 97; 0; 0]; [73; 73; 73; 97; 98; 99]]%Z,
        [[1; 1; 1; 1; 0; 0]; [1; 1; 1; 1; 1; 1]]%Z).
Proof.
  apply (preprocess_batch_padding Toy.toy_runtime Toy.toy_self
           ["a.jpg"; "b.jpg"] ["a"; "abc"]
           [(1%N, [73; 73; 73; 97]%Z); (1%N, [73; 73; 73; 97; 98; 99]%Z)]);
    done.
Defined.

(** ** Construction *)

Lemma dtype_map_lookup (dtype : string) :
  dtype_map !! dtype =
  if decide (dtype = "float32") then Some float32
  else if decide (dtype = "float16") then Some float16
  else if decide (dtype = "bfloat16") then Some bfloat16
  else None.
Proof.
  unfold dtype_map.
  repeat case_decide; subst; try done.
  rewrite !lookup_insert_ne by done. by rewrite lookup_singleton_ne.
Qed.

Lemma load_model_events (rt : Runtime) (model_id device : string)
    (dt : torch_dtype) (kwargs : gmap string value) (w : World) :
  ∃ tail,
    events (load_model rt model_id device dt kwargs w).2
    = events w ++ EvLoadTokenizer model_id :: tail.
Proof.
  unfold load_model. run_M.
  destruct (tokenizer_from_pretrained rt model_id true) as [tok|e]; simpl;
    [|by eexists].
  destruct (llava_from_pretrained rt model_id kwargs) as [m|e]; simpl;
    [|rewrite <- app_assoc; by eexists].
  destruct (model_to rt m device dt) as [m'|e]; simpl;
    rewrite <- app_assoc; by eexists.
Qed.

(** C3. The dtype check of the constructor.  For each of the three
    supported names the check passes with the matching torch dtype:
    construction goes on to [load_model] with it, and returns the instance
    when the loading collaborators return.  For every other string the
    constructor raises the [ValueError] of line 23 and leaves the world as it
    found it: the statistics are not created and no loading call is made. *)
Theorem construction_checks_dtype (rt : Runtime)
    (model_id device dtype : string) (kwargs : gmap string value) (w : World) :
  (∀ dt : torch_dtype,
     (dtype, dt) ∈ [("float32", float32); ("float16", float16);
                    ("bfloat16", bfloat16)] →
     dtype_map !! dtype = Some dt
     ∧ (∃ tail,
          events (__init__ rt model_id device dtype kwargs w).2
          = events w ++ EvLoadTokenizer model_id :: tail)
     ∧ (∀ tok m m',
          tokenizer_from_pretrained rt model_id true = Ok tok →
          llava_from_pretrained rt model_id kwargs = Ok m →
          model_to rt m device dt = Ok m' →
          __init__ rt model_id device dtype kwargs w
          = (Ok {| model_id := model_id; device := device; dtype := dt;
                   tokenizer := tok; model := m' |},
             {| stats := new_stats;
                events := events w ++ [EvLoadTokenizer model_id;
                                       EvLoadModel model_id kwargs] |})))
  ∧ (dtype ∉ ["float32"; "float16"; "bfloat16"] →
     dtype_map !! dtype = None
     ∧ __init__ rt model_id device dtype kwargs w
       = (Raise (ValueError
            "dtype must be one of 'float32', 'float16', or 'bfloat16'"), w)).
Proof.
  split.
  - intros dt Hin.
    assert (dtype_map !! dtype = Some dt) as Hmap.
    { rewrite dtype_map_lookup.
      repeat (apply elem_of_cons in Hin as [[= -> ->]|Hin]; [done|]).
      by apply elem_of_nil in Hin. }
    split; [done|]. unfold __init__. rewrite Hmap. split.
    + rewrite run_bind. simpl.
      pose proof (load_model_events rt model_id device dt kwargs
                    {| stats := new_stats; events := events w |}) as [tail Ht].
      rewrite run_bind.
      destruct (load_model _ _ _ _ _ _) as [[[tok m]|e] w'];
        simpl in *; by exists tail.
    + intros tok m m' Htok Hm Hto.
      unfold load_model. run_M.
      rewrite Htok. run_M. rewrite Hm. run_M. rewrite Hto. run_M.
      by rewrite <- app_assoc.
  - intros Hnot.
    assert (dtype_map !! dtype = None) as Hmap.
    { rewrite dtype_map_lookup.
      repeat (case_decide; [subst; exfalso; apply Hnot; set_solver|]). done. }
    split; [done|]. unfold __init__. by rewrite Hmap.
Qed.

Lemma construction_checks_dtype_witness :
  (Adapter.__init__ Toy.toy_runtime "m" "cpu" "bfloat16" ∅ Toy.w0
   = (Ok {| model_id := "m"; device := "cpu"; dtype := bfloat16;
            tokenizer := Toy.toy_tokenizer; model := Toy.toy_llava |},
      {| stats := new_stats;
         events := [EvLoadTokenizer "m"; EvLoadModel "m" ∅] |}))
  ∧ (Adapter.__init__ Toy.toy_runtime "m" "cpu" "int8" ∅ Toy.w0
     = (Raise (ValueError
          "dtype must be one of 'float32', 'float16', or 'bfloat16'"),
        Toy.w0)).
Proof.
  split.
  - destruct (construction_checks_dtype Toy.toy_runtime "m" "cpu" "bfloat16"
                ∅ Toy.w0) as [Hvalid _].
    destruct (Hvalid bfloat16) as (_ & _ & Hok); [by repeat constructor|].
    by apply (Hok Toy.toy_tokenizer Toy.toy_llava Toy.toy_llava).
  - destruct (construction_checks_dtype Toy.toy_runtime "m" "cpu" "int8"
                ∅ Toy.w0) as [_ Hinvalid].
    apply Hinvalid. rewrite !not_elem_of_cons. repeat split; try done.
    apply not_elem_of_nil.
Defined.

(** ** The two inference entry points, stage by stage *)

(** [infer] as a decision tree over what its collaborators answer. *)
Lemma infer_run (rt : Runtime) (self : JoyCaption) (image : string)
    (prompt : option string) (kw : gmap string value) (w : World) :
  infer rt self image prompt kw w =
  match execution_scope rt (device self) (dtype self) with
  | Raise e => (Raise e, close_timing_scope w)
  | Ok _ =>
    match preprocess rt self image prompt with
    | Raise e => (Raise e, close_timing_scope w)
    | Ok (px, ids, mask) =>
      match (_ ← device_ready rt (device self);
             call_keywords (written_keywords ids px mask)
                           (default_max_new_tokens kw)) with
      | Raise e => (Raise e, close_timing_scope w)
      | Ok kwf =>
        match (out ← generate (model self) kwf (length (generate_calls w));
               generate_ids ← first_item out;
               caption_of self (shape1 ids) generate_ids) with
        | Raise e =>
            (Raise e, close_timing_scope (log_event (EvGenerate kwf) w))
        | Ok caption =>
            (Ok caption,
             add_inferences 1
               (log_event (EvUpdateInferenceCount 1)
                  (close_timing_scope (log_event (EvGenerate kwf) w))))
        end
      end
    end
  end.
Proof.
  unfold infer, call_generate, run_generate, to_device. run_M.
  destruct (execution_scope _ _ _) as [[]|e]; [|done].
  destruct (preprocess _ _ _ _) as [[[px ids] mask]|e]; [|done].
  destruct (device_ready _ _) as [[]|e]; [|done].
  destruct (call_keywords _ _) as [kwf|e]; [|done].
  destruct (generate _ _ _) as [out|e]; [|done].
  destruct (first_item out) as [row|e]; [|done].
  simpl. by destruct (caption_of _ _ _) as [c|e].
Qed.

(** [infer_batch] likewise. *)
Lemma infer_batch_run (rt : Runtime) (self : JoyCaption)
    (images prompts : list string) (kw : gmap string value) (w : World) :
  infer_batch rt self images prompts kw w =
  match execution_scope rt (device self) (dtype self) with
  | Raise e => (Raise e, close_timing_scope w)
  | Ok _ =>
    match preprocess_batch rt self images prompts with
    | Raise e => (Raise e, close_timing_scope w)
    | Ok (px, ids, mask) =>
      match (_ ← device_ready rt (device self);
             call_keywords (written_keywords ids px mask)
                           (default_max_new_tokens kw)) with
      | Raise e => (Raise e, close_timing_scope w)
      | Ok kwf =>
        match (out ← generate (model self) kwf (length (generate_calls w));
               mapM (caption_of self (shape1 ids)) out) with
        | Raise e =>
            (Raise e, close_timing_scope (log_event (EvGenerate kwf) w))
        | Ok captions =>
            (Ok captions,
             add_inferences (Z.of_nat (length px))
               (log_event (EvUpdateInferenceCount (Z.of_nat (length px)))
                  (close_timing_scope (log_event (EvGenerate kwf) w))))
        end
      end
    end
  end.
Proof.
  unfold infer_batch, call_generate, run_generate, to_device. run_M.
  destruct (execution_scope _ _ _) as [[]|e]; [|done].
  destruct (preprocess_batch _ _ _ _) as [[[px ids] mask]|e]; [|done].
  destruct (device_ready _ _) as [[]|e]; [|done].
  destruct (call_keywords _ _) as [kwf|e]; [|done].
  destruct (generate _ _ _) as [out|e]; [|done].
  simpl. by destruct (mapM _ _) as [c|e].
Qed.

(** Read the logs off a world built from the three world changes. *)
Ltac read_logs :=
  unfold generate_calls, count_updates, add_inferences, close_timing_scope,
    log_event;
  simpl; rewrite ?omap_app; simpl; rewrite ?app_nil_r.

(** ** Generation options *)

Lemma call_keywords_inv (explicit : list (string * value))
    (extra kwf : gmap string value) :
  call_keywords explicit extra = Ok kwf →
  kwf = list_to_map explicit ∪ extra
  ∧ ∀ k v, (k, v) ∈ explicit → extra !! k = None.
Proof.
  unfold call_keywords.
  destruct (filter _ explicit) as [|[k' v'] l] eqn:Hf; [|done].
  intros [= <-]. split; [done|]. intros k v Hin.
  destruct (extra !! k) as [x|] eqn:Hk; [|done].
  exfalso. eapply (filter_nil_not_elem_of _ _ (k, v)); [exact Hf | | exact Hin].
  simpl. by rewrite Hk.
Qed.

Lemma call_keywords_disjoint (explicit : list (string * value))
    (extra : gmap string value) :
  (∀ k v, (k, v) ∈ explicit → extra !! k = None) →
  call_keywords explicit extra = Ok (list_to_map explicit ∪ extra).
Proof.
  intros Hfree. unfold call_keywords.
  destruct (filter _ explicit) as [|[k v] l] eqn:Hf; [done|].
  assert ((k, v) ∈ filter (λ kv, is_Some (extra !! kv.1)) explicit) as Hin
    by (rewrite Hf; left).
  apply list_elem_of_filter in Hin as [[x Hx] Hin]. simpl in Hx.
  by rewrite (Hfree k v Hin) in Hx.
Qed.

Lemma default_max_new_tokens_lookup (kw : gmap string value) (k : string) :
  default_max_new_tokens kw !! k =
  if decide (k = "max_new_tokens")
  then Some (default (VInt 300) (kw !! "max_new_tokens"))
  else kw !! k.
Proof.
  unfold default_max_new_tokens.
  destruct (decide (is_Some (kw !! "max_new_tokens"))) as [[v Hv]|Hnone].
  - case_decide; [subst; by rewrite Hv | done].
  - apply eq_None_not_Some in Hnone.
    case_decide; [subst; by rewrite lookup_insert_eq, Hnone|].
    by rewrite lookup_insert_ne.
Qed.

(** What the callee sees once the written keywords and the caller's options
    are merged. *)
Lemma merged_keywords_lookup (ids mask : Matrix) (px : list Pixels)
    (kw kwf : gmap string value) :
  call_keywords (written_keywords ids px mask) (default_max_new_tokens kw)
    = Ok kwf →
  options_as_specified kw kwf
  ∧ kwf !! "input_ids" = Some (VLong ids)
  ∧ kwf !! "pixel_values" = Some (VPixels px)
  ∧ kwf !! "attention_mask" = Some (VLong mask)
  ∧ ∀ k, k ∉ reserved_keywords → k ≠ "max_new_tokens" → kwf !! k = kw !! k.
Proof.
  intros H. apply call_keywords_inv in H as [-> _].
  unfold options_as_specified, written_keywords. simpl.
  repeat split.
  - rewrite lookup_union_r
      by (rewrite !lookup_insert_ne by done; apply lookup_empty).
    by rewrite default_max_new_tokens_lookup, decide_True.
  - apply lookup_union_Some_l.
    rewrite !lookup_insert_ne by done. apply lookup_insert_eq.
  - apply lookup_union_Some_l.
    rewrite !lookup_insert_ne by done. apply lookup_insert_eq.
  - apply lookup_union_Some_l.
    rewrite !lookup_insert_ne by done. apply lookup_insert_eq.
  - apply lookup_union_Some_l. apply lookup_insert_eq.
  - apply lookup_union_Some_l.
    rewrite !lookup_insert_ne by done. apply lookup_insert_eq.
  - apply lookup_union_Some_l.
    rewrite !lookup_insert_ne by done. apply lookup_insert_eq.
  - intros k Hk Hmax. unfold reserved_keywords in Hk.
    rewrite !not_elem_of_cons in Hk.
    destruct Hk as (? & ? & ? & ? & ? & ? & _).
    rewrite lookup_union_r
      by (rewrite !lookup_insert_ne by done; apply lookup_empty).
    by rewrite default_max_new_tokens_lookup, decide_False.
Qed.

Lemma merged_keywords_Ok (ids mask : Matrix) (px : list Pixels)
    (kw : gmap string value) :
  Forall (λ k, kw !! k = None) reserved_keywords →
  is_Ok (call_keywords (written_keywords ids px mask)
                       (default_max_new_tokens kw)).
Proof.
  intros Hfree. rewrite call_keywords_disjoint; [done|].
  intros k v Hin. rewrite default_max_new_tokens_lookup.
  rewrite Forall_forall in Hfree. unfold written_keywords in Hin.
  repeat (apply elem_of_cons in Hin as [[= -> _]|Hin];
          [rewrite decide_False by done; apply Hfree;
           unfold reserved_keywords; set_solver|]).
  by apply elem_of_nil in Hin.
Qed.

(** C5. Generation options.  Whatever happens in a call of [infer] or of
    [infer_batch], it makes at most one generation call, and that call
    receives [max_new_tokens = 300] when the caller gave none and the
    caller's value otherwise, together with [do_sample = True],
    [suppress_tokens = None] and [use_cache = True].  The call is made
    whenever the execution scope opens, preprocessing returns, the device
    takes the tensors and the caller's options repeat none of the keywords
    the adapter writes. *)
Theorem generation_call_options (rt : Runtime) (self : JoyCaption)
    (image : string) (prompt : option string) (images prompts : list string)
    (kw : gmap string value) (w : World) :
  (∃ calls : list (gmap string value),
     generate_calls (infer rt self image prompt kw w).2
       = generate_calls w ++ calls
     ∧ length calls ≤ 1
     ∧ Forall (options_as_specified kw) calls
     ∧ (is_Ok (execution_scope rt (device self) (dtype self)) →
        is_Ok (preprocess rt self image prompt) →
        is_Ok (device_ready rt (device self)) →
        Forall (λ k, kw !! k = None) reserved_keywords →
        length calls = 1))
  ∧ (∃ calls : list (gmap string value),
       generate_calls (infer_batch rt self images prompts kw w).2
         = generate_calls w ++ calls
       ∧ length calls ≤ 1
       ∧ Forall (options_as_specified kw) calls
       ∧ (is_Ok (execution_scope rt (device self) (dtype self)) →
          is_Ok (preprocess_batch rt self images prompts) →
          is_Ok (device_ready rt (device self)) →
          Forall (λ k, kw !! k = None) reserved_keywords →
          length calls = 1)).
Proof.
  split.
  - rewrite infer_run.
    destruct (execution_scope _ _ _) as [[]|e];
      [|exists []; read_logs; repeat split; auto; done].
    destruct (preprocess _ _ _ _) as [[[px ids] mask]|e];
      [|exists []; read_logs; repeat split; auto; done].
    destruct (device_ready _ _) as [[]|e]; simpl;
      [|exists []; read_logs; repeat split; auto; done].
    destruct (call_keywords _ _) as [kwf|e] eqn:Hkw.
    + apply merged_keywords_lookup in Hkw as [Hopt _].
      exists [kwf].
      destruct (mbind _ (generate _ _ _)) as [c|e]; read_logs;
        repeat split; auto.
    + exists []. read_logs. repeat split; auto.
      intros _ _ _ Hfree.
      apply (merged_keywords_Ok ids mask px) in Hfree. by rewrite Hkw in Hfree.
  - rewrite infer_batch_run.
    destruct (execution_scope _ _ _) as [[]|e];
      [|exists []; read_logs; repeat split; auto; done].
    destruct (preprocess_batch _ _ _ _) as [[[px ids] mask]|e];
      [|exists []; read_logs; repeat split; auto; done].
    destruct (device_ready _ _) as [[]|e]; simpl;
      [|exists []; read_logs; repeat split; auto; done].
    destruct (call_keywords _ _) as [kwf|e] eqn:Hkw.
    + apply merged_keywords_lookup in Hkw as [Hopt _].
      exists [kwf].
      destruct (mbind _ (generate _ _ _)) as [c|e]; read_logs;
        repeat split; auto.
    + exists []. read_logs. repeat split; auto.
      intros _ _ _ Hfree.
      apply (merged_keywords_Ok ids mask px) in Hfree. by rewrite Hkw in Hfree.
Qed.

(** With no option given, the one generation call of the toy run receives
    300 and the three fixed settings; the caller's 5 is passed on as it is. *)
Lemma generation_call_options_witness :
  (∃ kwf : gmap string value,
     generate_calls
       (Adapter.infer Toy.toy_runtime Toy.toy_self "cat.jpg" (Some "ab") ∅
          Toy.w0).2 = [kwf]
     ∧ kwf !! "max_new_tokens" = Some (VInt 300)
     ∧ kwf !! "do_sample" = Some (VBool true)
     ∧ kwf !! "suppress_tokens" = Some VNone
     ∧ kwf !! "use_cache" = Some (VBool true))
  ∧ (∃ kwf : gmap string value,
       generate_calls
         (Adapter.infer_batch Toy.toy_runtime Toy.toy_self
            ["a.jpg"; "b.jpg"] ["a"; "abc"]
            {[ "max_new_tokens" := VInt 5 ]} Toy.w0).2 = [kwf]
       ∧ kwf !! "max_new_tokens" = Some (VInt 5)).
Proof.
  split.
  - destruct (generation_call_options Toy.toy_runtime Toy.toy_self "cat.jpg"
                (Some "ab") [] [] ∅ Toy.w0)
      as [(calls & Hcalls & _ & Hall & Hone) _].
    assert (length calls = 1) as Hlen
      by (apply Hone; [exact I | exact I | exact I | repeat constructor]).
    destruct calls as [|kwf [|kwf' calls]]; try discriminate Hlen.
    exists kwf. split; [exact Hcalls|].
    apply Forall_cons in Hall as [Hopt _]. exact Hopt.
  - destruct (generation_call_options Toy.toy_runtime Toy.toy_self "" None
                ["a.jpg"; "b.jpg"] ["a"; "abc"]
                {[ "max_new_tokens" := VInt 5 ]} Toy.w0)
      as [_ (calls & Hcalls & _ & Hall & Hone)].
    assert (length calls = 1) as Hlen
      by (apply Hone; [exact I | exact I | exact I | repeat constructor]).
    destruct calls as [|kwf [|kwf' calls]]; try discriminate Hlen.
    exists kwf. split; [exact Hcalls|].
    apply Forall_cons in Hall as [[Hmax _] _]. exact Hmax.
Defined.

(** A caller that repeats a written keyword gets the interpreter's
    [TypeError], and no generation call is made. *)
Example repeated_keyword_raises :
  Adapter.infer Toy.toy_runtime Toy.toy_self "cat.jpg" (Some "ab")
    {[ "do_sample" := VBool false ]} Toy.w0
  = (Raise (TypeError "do_sample"), close_timing_scope Toy.w0).
Proof. reflexivity. Qed.

(** ** Inference counting *)

Lemma preprocess_batch_inv (rt : Runtime) (self : JoyCaption)
    (images prompts : list string) (px : list Pixels) (ids mask : Matrix) :
  preprocess_batch rt self images prompts = Ok (px, ids, mask) →
  ∃ processed : list (Pixels * Row),
    mapM (preprocess_pair rt self) (zip images prompts) = Ok processed
    ∧ processed ≠ []
    ∧ px = processed.*1
    ∧ ids = padded_row (max_list (length <$> processed.*2)) <$> processed.*2
    ∧ mask = mask_row (max_list (length <$> processed.*2)) <$> processed.*2.
Proof.
  intros H.
  destruct (mapM (preprocess_pair rt self) (zip images prompts))
    as [processed|e] eqn:Hdone.
  - destruct (decide (processed = [])) as [->|Hne].
    + unfold preprocess_batch in H. by rewrite Hdone in H.
    + rewrite (preprocess_batch_Ok _ _ _ _ _ Hdone Hne) in H.
      injection H as <- <- <-. by exists processed.
  - unfold preprocess_batch in H. by rewrite Hdone in H.
Qed.

Lemma preprocess_batch_size (rt : Runtime) (self : JoyCaption)
    (images prompts : list string) (px : list Pixels) (ids mask : Matrix) :
  preprocess_batch rt self images prompts = Ok (px, ids, mask) →
  length px = length (zip images prompts)
  ∧ length ids = length (zip images prompts)
  ∧ length mask = length (zip images prompts)
  ∧ 0 < length (zip images prompts).
Proof.
  intros H. apply preprocess_batch_inv in H
    as (processed & Hdone & Hne & -> & -> & ->).
  apply mapM_length in Hdone. rewrite !length_fmap, Hdone.
  repeat split. rewrite <- Hdone. destruct processed; [done | simpl; lia].
Qed.

(** The branch of a call that raised: nothing counted, nothing returned. *)
Ltac raised :=
  read_logs; (split; [done|]); (split; [lia|]); simpl; tauto.

(** C6. Inference counting.  A call of [infer] that returns has called
    [update_inference_count] once, with 1, and so raised the inference count
    by exactly 1; a call of [infer_batch] that returns has called it once,
    with the number of pairs in the batch, and raised the count by exactly
    that number.  A call that raises, at whatever stage, has not called it
    and leaves the count as it was.  A call returns only if preprocessing
    returned and the generation call it made returned. *)
Theorem inference_count_updates (rt : Runtime) (self : JoyCaption)
    (image : string) (prompt : option string) (images prompts : list string)
    (kw : gmap string value) (w : World) :
  (count_updates (infer rt self image prompt kw w).2
   = count_updates w
     ++ match (infer rt self image prompt kw w).1 with
        | Ok _ => [1%Z]
        | Raise _ => []
        end
   ∧ num_inferences (stats (infer rt self image prompt kw w).2)
     = (num_inferences (stats w)
        + match (infer rt self image prompt kw w).1 with
          | Ok _ => 1
          | Raise _ => 0
          end)%Z
   ∧ (is_Ok (infer rt self image prompt kw w).1 →
      is_Ok (preprocess rt self image prompt)
      ∧ ∃ kwf, generate_calls (infer rt self image prompt kw w).2
                 = generate_calls w ++ [kwf]
               ∧ is_Ok (generate (model self) kwf
                          (length (generate_calls w)))))
  ∧ (count_updates (infer_batch rt self images prompts kw w).2
     = count_updates w
       ++ match (infer_batch rt self images prompts kw w).1 with
          | Ok _ => [Z.of_nat (length (zip images prompts))]
          | Raise _ => []
          end
     ∧ num_inferences (stats (infer_batch rt self images prompts kw w).2)
       = (num_inferences (stats w)
          + match (infer_batch rt self images prompts kw w).1 with
            | Ok _ => Z.of_nat (length (zip images prompts))
            | Raise _ => 0
            end)%Z
     ∧ (is_Ok (infer_batch rt self images prompts kw w).1 →
        is_Ok (preprocess_batch rt self images prompts)
        ∧ ∃ kwf, generate_calls (infer_batch rt self images prompts kw w).2
                   = generate_calls w ++ [kwf]
                 ∧ is_Ok (generate (model self) kwf
                            (length (generate_calls w)))))
  ∧ length (zip images prompts)
    = Nat.min (length images) (length prompts).
Proof.
  split; [|split]; [| |apply length_zip].
  - rewrite infer_run. set (n := length (generate_calls w)).
    destruct (execution_scope _ _ _) as [[]|e];
      [|by raised].
    destruct (preprocess _ _ _ _) as [[[px ids] mask]|e];
      [|by raised].
    destruct (device_ready _ _) as [[]|e]; simpl; [|by raised].
    destruct (call_keywords _ _) as [kwf|e]; [|by raised].
    destruct (generate _ _ _) as [out|e] eqn:Hgen;
      [|by raised].
    simpl. destruct (_ ← first_item out; _) as [c|e];
      [|by raised].
    read_logs. split; [done|]. split; [done|]. intros _. split; [done|].
    exists kwf. by rewrite Hgen.
  - rewrite infer_batch_run. set (n := length (generate_calls w)).
    destruct (execution_scope _ _ _) as [[]|e];
      [|by raised].
    destruct (preprocess_batch _ _ _ _) as [[[px ids] mask]|e] eqn:Hpre;
      [|by raised].
    apply preprocess_batch_size in Hpre as (Hpx & _).
    destruct (device_ready _ _) as [[]|e]; simpl; [|by raised].
    destruct (call_keywords _ _) as [kwf|e]; [|by raised].
    destruct (generate _ _ _) as [out|e] eqn:Hgen;
      [|by raised].
    simpl. destruct (mapM _ out) as [c|e];
      [|by raised].
    read_logs. rewrite Hpx. split; [done|]. split; [done|].
    intros _. split; [done|]. exists kwf. by rewrite Hgen.
Qed.

(** The toy runs: one inference counted for [infer], two for a batch of
    two pairs, none when the image does not open. *)
Lemma inference_count_updates_witness :
  num_inferences
    (stats (Adapter.infer Toy.toy_runtime Toy.toy_self "cat.jpg" (Some "ab")
              ∅ Toy.w0).2) = 1%Z
  ∧ num_inferences
      (stats (Adapter.infer_batch Toy.toy_runtime Toy.toy_self
                ["a.jpg"; "b.jpg"] ["a"; "abc"] ∅ Toy.w0).2) = 2%Z
  ∧ num_inferences
      (stats (Adapter.infer Toy.toy_runtime Toy.toy_self "" (Some "ab")
                ∅ Toy.w0).2) = 0%Z.
Proof.
  destruct (inference_count_updates Toy.toy_runtime Toy.toy_self "cat.jpg"
              (Some "ab") ["a.jpg"; "b.jpg"] ["a"; "abc"] ∅ Toy.w0)
    as ((_ & Hone & _) & (_ & Htwo & _) & _).
  destruct (inference_count_updates Toy.toy_runtime Toy.toy_self ""
              (Some "ab") [] [] ∅ Toy.w0)
    as ((_ & Hnone & _) & _).
  split; [exact Hone|]. split; [exact Htwo | exact Hnone].
Defined.

(** ** Trimming the prompt *)

Lemma shape1_padded (rows : list Row) :
  rows ≠ [] →
  shape1 (padded_row (max_list (length <$> rows)) <$> rows)
  = max_list (length <$> rows).
Proof.
  intros Hne. pose proof (rows_le_max rows) as Hle.
  destruct rows as [|r rows]; [done|].
  apply Forall_cons in Hle as [Hr _]. cbn [fmap list_fmap shape1].
  by apply padded_row_length.
Qed.

Lemma caption_of_inv (self : JoyCaption) (width : nat) (row : Row)
    (caption : string) :
  caption_of self width row = Ok caption ↔
  ∃ s, decode (tokenizer self) (drop width row) true false = Ok s
       ∧ caption = strip s.
Proof.
  unfold caption_of. split.
  - intros H. apply bind_Ok_inv in H as (s & Hs & [= <-]). by exists s.
  - intros (s & Hs & ->). by rewrite Hs.
Qed.

(** C4. Every caption of a batch is cut at one shared position.  When
    [infer_batch] returns, the generation call received the padded token
    matrix, all of whose rows have the padded width (the longest example's
    length), and caption [i] is the stripped decoding of row [i] of the
    generation output with exactly that many leading tokens dropped, for
    every row alike.  That this is not a cut at each example's own length
    shows on a ragged batch: two prompts of lengths 4 and 6 are both cut at
    6, and cutting the first at 4 gives another caption. *)
Theorem batch_trim_uses_padded_width :
  (∀ (rt : Runtime) (self : JoyCaption) (images prompts : list string)
     (kw : gmap string value) (w : World) (captions : list string),
     (infer_batch rt self images prompts kw w).1 = Ok captions →
     ∃ (processed : list (Pixels * Row)) (kwf : gmap string value)
       (out : Matrix),
       let width := max_list (length <$> processed.*2) in
       let input_ids := padded_row width <$> processed.*2 in
       mapM (preprocess_pair rt self) (zip images prompts) = Ok processed
       ∧ kwf !! "input_ids" = Some (VLong input_ids)
       ∧ Forall (λ r, length r = width) input_ids
       ∧ shape1 input_ids = width
       ∧ generate (model self) kwf (length (generate_calls w)) = Ok out
       ∧ Forall2 (λ row caption,
                    ∃ s, decode (tokenizer self) (drop width row) true false
                         = Ok s
                         ∧ caption = strip s)
                 out captions)
  ∧ (let out := [[73; 73; 73; 97; 0; 0; 32; 111; 107];
                 [73; 73; 73; 97; 98; 99; 32; 111; 107]]%Z in
     Adapter.preprocess_batch Toy.toy_runtime Toy.toy_self
       ["a.jpg"; "b.jpg"] ["a"; "abc"]
     = Ok ([1%N; 1%N],
           [[73; 73; 73; 97; 0; 0]; [73; 73; 73; 97; 98; 99]]%Z,
           [[1; 1; 1; 1; 0; 0]; [1; 1; 1; 1; 1; 1]]%Z)
     ∧ (Adapter.infer_batch Toy.toy_runtime Toy.toy_self
          ["a.jpg"; "b.jpg"] ["a"; "abc"] ∅ Toy.w0).1
       = Ok ["ok"; "ok"]
     ∧ mapM (Adapter.caption_of Toy.toy_self 6) out = Ok ["ok"; "ok"]
     ∧ captions_by_own_length Toy.toy_self [4; 6] out ≠ Ok ["ok"; "ok"]).
Proof.
  split; [|by vm_compute].
  intros rt self images prompts kw w captions. rewrite infer_batch_run.
  destruct (execution_scope _ _ _) as [[]|e]; [|done].
  destruct (preprocess_batch _ _ _ _) as [[[px ids] mask]|e] eqn:Hpre; [|done].
  destruct (device_ready _ _) as [[]|e]; simpl; [|done].
  destruct (call_keywords _ _) as [kwf|e] eqn:Hkw; [|done].
  destruct (generate _ _ _) as [out|e] eqn:Hgen; [|done].
  simpl. destruct (mapM _ out) as [c|e] eqn:Hcap; [|done].
  simpl. intros [= ->].
  apply preprocess_batch_inv in Hpre
    as (processed & Hdone & Hne & -> & -> & ->).
  apply merged_keywords_lookup in Hkw as (_ & Hids & _).
  assert (processed.*2 ≠ []) as Hrows by (by destruct processed).
  rewrite shape1_padded in Hcap by done.
  exists processed, kwf, out. cbv zeta.
  split; [done|]. split; [done|]. split.
  { apply Forall_fmap. eapply Forall_impl; [apply rows_le_max|].
    intros r Hr. by apply padded_row_length. }
  split; [by apply shape1_padded|]. split; [done|].
  apply mapM_Forall2 in Hcap.
  eapply Forall2_impl; [exact Hcap|].
  intros row c Hc. by apply caption_of_inv.
Qed.

(** The ragged toy batch again, through the general statement. *)
Lemma batch_trim_uses_padded_width_witness :
  ∃ (processed : list (Pixels * Row)) (kwf : gmap string value)
    (out : Matrix),
    mapM (Adapter.preprocess_pair Toy.toy_runtime Toy.toy_self)
         (zip ["a.jpg"; "b.jpg"] ["a"; "abc"]) = Ok processed
    ∧ shape1 (padded_row (max_list (length <$> processed.*2))
                <$> processed.*2)
      = max_list (length <$> processed.*2)
    ∧ Forall2 (λ row caption,
                 ∃ s, decode Toy.toy_tokenizer
                        (drop (max_list (length <$> processed.*2)) row)
                        true false = Ok s
                      ∧ caption = strip s)
              out ["ok"; "ok"].
Proof.
  destruct batch_trim_uses_padded_width as [Hgeneral _].
  destruct (Hgeneral Toy.toy_runtime Toy.toy_self ["a.jpg"; "b.jpg"]
              ["a"; "abc"] ∅ Toy.w0 ["ok"; "ok"])
    as (processed & kwf & out & Hpairs & _ & _ & Hwidth & _ & Hcaptions);
    [reflexivity|].
  exists processed, kwf, out.
  split; [exact Hpairs|]. split; [exact Hwidth | exact Hcaptions].
Defined.

(** ** Zero new tokens *)

(** C9. When generation returns the prompt itself, with no new token, and
    decoding no token gives text that strips to nothing, [infer] cuts the
    generated row down to the empty sequence and returns the empty
    string. *)
Theorem zero_new_tokens_empty_caption (rt : Runtime) (self : JoyCaption)
    (image : string) (prompt : option string) (kw kwf : gmap string value)
    (w : World) (px : list Pixels) (ids mask : Matrix) (s : string) :
  execution_scope rt (device self) (dtype self) = Ok () →
  preprocess rt self image prompt = Ok (px, ids, mask) →
  device_ready rt (device self) = Ok () →
  call_keywords (written_keywords ids px mask) (default_max_new_tokens kw)
    = Ok kwf →
  generate (model self) kwf (length (generate_calls w)) = Ok ids →
  decode (tokenizer self) [] true false = Ok s →
  strip s = "" →
  (∃ row : Row, first_item ids = Ok row ∧ drop (shape1 ids) row = [])
  ∧ (infer rt self image prompt kw w).1 = Ok "".
Proof.
  intros Hscope Hpre Hdev Hkw Hgen Hdec Hstrip.
  rewrite infer_run, Hscope, Hpre, Hdev. simpl. rewrite Hkw, Hgen.
  apply preprocess_inv in Hpre as (q & row & _ & _ & _ & _ & -> & _).
  simpl. unfold caption_of. rewrite drop_all, Hdec. simpl.
  split; [|by rewrite Hstrip].
  exists row. by rewrite drop_all.
Qed.

Lemma zero_new_tokens_empty_caption_witness :
  (Adapter.infer Toy.toy_runtime Toy.echo_self "cat.jpg" (Some "ab")
     {[ "max_new_tokens" := VInt 0 ]} Toy.w0).1 = Ok "".
Proof.
  apply (zero_new_tokens_empty_caption Toy.toy_runtime Toy.echo_self
           "cat.jpg" (Some "ab") {[ "max_new_tokens" := VInt 0 ]}
           (list_to_map
              (written_keywords [[73; 73; 73; 97; 98]]%Z [1%N]
                                [[1; 1; 1; 1; 1]]%Z)
            ∪ {[ "max_new_tokens" := VInt 0 ]})
           Toy.w0 [1%N] [[73; 73; 73; 97; 98]]%Z [[1; 1; 1; 1; 1]]%Z "");
    reflexivity.
Defined.

(** ** Lists of unequal lengths *)

Lemma zip_take_min {A B} (l : list A) (k : list B) :
  zip (take (Nat.min (length l) (length k)) l)
      (take (Nat.min (length l) (length k)) k)
  = zip l k.
Proof. by apply zip_with_take_both'. Qed.

Lemma preprocess_batch_zip (rt : Runtime) (self : JoyCaption)
    (images prompts images' prompts' : list string) :
  zip images' prompts' = zip images prompts →
  preprocess_batch rt self images' prompts'
  = preprocess_batch rt self images prompts.
Proof. intros H. unfold preprocess_batch. by rewrite H. Qed.

(** An empty list on one side is an unequal pairing that does raise:
    nothing is left to take the maximum of.  And the captions are as many
    as the rows the generation call returns: with three images, two prompts
    and two return sequences asked for, four. *)
Lemma unequal_lengths_can_raise :
  (length ["a.jpg"] ≠ length (@nil string)
   ∧ Adapter.infer_batch Toy.toy_runtime Toy.toy_self ["a.jpg"] [] ∅ Toy.w0
     = (Raise (ValueError "max() arg is an empty sequence"),
        close_timing_scope Toy.w0)
   ∧ ¬ is_Ok (Adapter.infer_batch Toy.toy_runtime Toy.toy_self
                ["a.jpg"] [] ∅ Toy.w0).1)
  ∧ (Adapter.infer_batch Toy.toy_runtime Toy.toy_self
       ["a.jpg"; "b.jpg"; "c.jpg"] ["a"; "abc"]
       {[ "num_return_sequences" := VInt 2 ]} Toy.w0).1
    = Ok ["ok"; "ok"; "ok"; "ok"].
Proof.
  split; [|reflexivity].
  split; [done|]. split; [reflexivity|]. by vm_compute.
Qed.

(** C10, for lists of any two lengths.  The pairing stops at the shorter
    list and the difference in length raises nothing of its own: with
    [n = min (len images) (len prompts)], a call of [infer_batch] goes
    exactly as the call on the first [n] images and the first [n] prompts
    does.  When it returns, [n] is at least 1, the generation call received
    [n] token rows, [n] mask rows and [n] images, the inference count has
    grown by [n], and there is one caption for each row the generation
    returned.  When [n] is 0 the call does not return. *)
Theorem batch_pairs_up_to_shorter (rt : Runtime) (self : JoyCaption)
    (images prompts : list string) (kw : gmap string value) (w : World) :
  let n := Nat.min (length images) (length prompts) in
  infer_batch rt self images prompts kw w
  = infer_batch rt self (take n images) (take n prompts) kw w
  ∧ length (zip images prompts) = n
  ∧ (n = 0 → ¬ is_Ok (infer_batch rt self images prompts kw w).1)
  ∧ (∀ captions : list string,
       (infer_batch rt self images prompts kw w).1 = Ok captions →
       0 < n
       ∧ num_inferences (stats (infer_batch rt self images prompts kw w).2)
         = (num_inferences (stats w) + Z.of_nat n)%Z
       ∧ ∃ (kwf : gmap string value) (px : list Pixels) (ids mask out : Matrix),
           generate_calls (infer_batch rt self images prompts kw w).2
             = generate_calls w ++ [kwf]
           ∧ kwf !! "input_ids" = Some (VLong ids)
           ∧ kwf !! "attention_mask" = Some (VLong mask)
           ∧ kwf !! "pixel_values" = Some (VPixels px)
           ∧ length ids = n ∧ length mask = n ∧ length px = n
           ∧ generate (model self) kwf (length (generate_calls w)) = Ok out
           ∧ length captions = length out).
Proof.
  intros n. split; [|split; [apply length_zip|split]].
  - rewrite !infer_batch_run.
    by rewrite (preprocess_batch_zip rt self images prompts
                  (take n images) (take n prompts) (zip_take_min _ _)).
  - intros Hn. rewrite infer_batch_run.
    destruct (execution_scope _ _ _) as [[]|e]; [|simpl; tauto].
    destruct (preprocess_batch _ _ _ _) as [[[px ids] mask]|e] eqn:Hpre;
      [|simpl; tauto].
    apply preprocess_batch_size in Hpre as (_ & _ & _ & Hpos).
    rewrite length_zip in Hpos. fold n in Hpos. lia.
  - intros captions. rewrite infer_batch_run.
    destruct (execution_scope _ _ _) as [[]|e]; [|done].
    destruct (preprocess_batch _ _ _ _) as [[[px ids] mask]|e] eqn:Hpre;
      [|done].
    destruct (device_ready _ _) as [[]|e]; simpl; [|done].
    destruct (call_keywords _ _) as [kwf|e] eqn:Hkw; [|done].
    destruct (generate _ _ _) as [out|e] eqn:Hgen; [|done].
    simpl. destruct (mapM _ out) as [c|e] eqn:Hcap; [|done].
    simpl. intros [= ->].
    apply preprocess_batch_size in Hpre as (Hpx & Hids & Hmask & Hpos).
    rewrite length_zip in Hpx, Hids, Hmask, Hpos.
    fold n in Hpx, Hids, Hmask, Hpos.
    apply merged_keywords_lookup in Hkw as (_ & Hkids & Hkpx & Hkmask & _).
    split; [done|]. split; [by rewrite Hpx|].
    exists kwf, px, ids, mask, out.
    split; [by read_logs|].
    repeat split; try done. by apply mapM_length in Hcap.
Qed.

(** Three images and two prompts: two captions, two inferences counted. *)
Lemma batch_pairs_up_to_shorter_witness :
  Adapter.infer_batch Toy.toy_runtime Toy.toy_self
    ["a.jpg"; "b.jpg"; "c.jpg"] ["a"; "abc"] ∅ Toy.w0
  = Adapter.infer_batch Toy.toy_runtime Toy.toy_self
      ["a.jpg"; "b.jpg"] ["a"; "abc"] ∅ Toy.w0
  ∧ num_inferences
      (stats (Adapter.infer_batch Toy.toy_runtime Toy.toy_self
                ["a.jpg"; "b.jpg"; "c.jpg"] ["a"; "abc"] ∅ Toy.w0).2)
    = 2%Z.
Proof.
  pose proof (batch_pairs_up_to_shorter Toy.toy_runtime Toy.toy_self
                ["a.jpg"; "b.jpg"; "c.jpg"] ["a"; "abc"] ∅ Toy.w0)
    as (Hsame & _ & _ & Hret).
  split; [exact Hsame|].
  destruct (Hret ["ok"; "ok"]) as (_ & Hcount & _); [reflexivity|].
  exact Hcount.
Defined.

(** ** The registry *)

Section registry_properties.
Context {C : Type}.
Implicit Types (registry : gmap string (Registry.RegistryEntry C)).

Lemma registry_after_snoc (defs : list (Registry.RegistryEntry C))
    (d : Registry.RegistryEntry C) :
  Registry.registry_after (defs ++ [d])
  = <[Registry.identifier d := d]> (Registry.registry_after defs).
Proof.
  unfold Registry.registry_after. rewrite foldl_app. simpl.
  by destruct d.
Qed.

Lemma registry_after_lookup_None (defs : list (Registry.RegistryEntry C))
    (id : string) :
  id ∉ Registry.identifier <$> defs →
  Registry.registry_after defs !! id = None.
Proof.
  induction defs as [|d defs IH] using rev_ind; intros Hid.
  - apply lookup_empty.
  - rewrite fmap_app, not_elem_of_app in Hid. destruct Hid as [Hdefs Hd].
    rewrite registry_after_snoc, lookup_insert_ne; [by apply IH|].
    simpl in Hd. rewrite not_elem_of_cons in Hd. by destruct Hd.
Qed.

End registry_properties.

(** C7. Registry round trip.  From the registry left by any run of
    registrations, applying the decorator to a class hands the class back
    as it is and leaves a registry that holds the entry, in which the
    identifier resolves to that class; an identifier that no registration
    named resolves to [NotFoundError].  For the adapter: after the
    decorated class statement, its identifier resolves to the adapter's own
    constructor, which is also what the name [JoyCaption] is bound to. *)
Theorem registry_round_trip :
  (∀ (C : Type) (defs : list (Registry.RegistryEntry C))
     (identifier backend_kind : string)
     (capability : Registry.ModelInputOutput) (cls : C) (other : string),
     let registry := Registry.registry_after defs in
     let decorated :=
       Registry.register_model identifier backend_kind capability cls
                               registry in
     decorated.1 = cls
     ∧ decorated.2 !! identifier
       = Some (Registry.mkEntry identifier backend_kind capability cls)
     ∧ Registry.resolve decorated.2 identifier = Registry.Found cls
     ∧ (other ≠ identifier →
        other ∉ Registry.identifier <$> defs →
        Registry.resolve decorated.2 other = Registry.NotFoundError other))
  ∧ (∀ registry,
       (Registry.decorate_JoyCaption registry).1 = Adapter.__init__
       ∧ Registry.resolve (Registry.decorate_JoyCaption registry).2
           Registry.joycaption_id
         = Registry.Found Adapter.__init__).
Proof.
  split.
  - intros C defs identifier backend_kind capability cls other registry
      decorated.
    subst decorated. unfold Registry.register_model, Registry.resolve. simpl.
    rewrite lookup_insert_eq. repeat split; try done.
    intros Hne Hother. rewrite lookup_insert_ne by done.
    subst registry. by rewrite registry_after_lookup_None.
  - intros registry.
    unfold Registry.decorate_JoyCaption, Registry.register_model,
      Registry.resolve.
    simpl. by rewrite lookup_insert_eq.
Qed.

Lemma registry_round_trip_witness :
  Registry.resolve
    (Registry.register_model "m" "k" Registry.IMAGE_TEXT_TO_TEXT 7
       (Registry.registry_after
          [Registry.mkEntry "a" "k" Registry.IMAGE_TEXT_TO_TEXT 1])).2
    "m" = Registry.Found 7
  ∧ Registry.resolve
      (Registry.register_model "m" "k" Registry.IMAGE_TEXT_TO_TEXT 7
         (Registry.registry_after
            [Registry.mkEntry "a" "k" Registry.IMAGE_TEXT_TO_TEXT 1])).2
      "z" = Registry.NotFoundError "z".
Proof.
  destruct registry_round_trip as [Hgeneral _].
  destruct (Hgeneral nat
              [Registry.mkEntry "a" "k" Registry.IMAGE_TEXT_TO_TEXT 1]
              "m" "k" Registry.IMAGE_TEXT_TO_TEXT 7 "z")
    as (_ & _ & Hfound & Hmissing).
  split; [exact Hfound|].
  apply Hmissing; [done|].
  intros Hin. apply list_elem_of_singleton in Hin. done.
Defined.

(** * Further properties of the adapter

    What the code of [joycaption.py] shows beyond the statements above: edge
    cases of the expansion, how the batched path relates to the single one,
    what reaches the generation call, and how failures travel. *)

(** ** Cases to run *)

Module Cases.

(** A configuration whose image sequence length is not positive. *)
Definition no_slots : LlavaConfig :=
  {| image_token_index := 73; image_seq_length := -2 |}.

(** A hub whose tokenizer cannot be loaded. *)
Definition no_tokenizer : Runtime := {|
  image_pipeline := image_pipeline Toy.toy_runtime;
  tokenizer_from_pretrained id _ := Raise (ExternalError "OSError" id);
  llava_from_pretrained := llava_from_pretrained Toy.toy_runtime;
  model_to := model_to Toy.toy_runtime;
  device_ready := device_ready Toy.toy_runtime;
  execution_scope := execution_scope Toy.toy_runtime
|}.

(** A hub that has the tokenizer and not the weights. *)
Definition no_weights : Runtime := {|
  image_pipeline := image_pipeline Toy.toy_runtime;
  tokenizer_from_pretrained := tokenizer_from_pretrained Toy.toy_runtime;
  llava_from_pretrained id _ := Raise (ExternalError "OSError" id);
  model_to := model_to Toy.toy_runtime;
  device_ready := device_ready Toy.toy_runtime;
  execution_scope := execution_scope Toy.toy_runtime
|}.

(** [s[0].isspace()] and [s[-1].isspace()], false on the empty string. *)
Definition starts_with_space (s : string) : bool :=
  match s with
  | EmptyString => false
  | String c _ => is_space c
  end.

Fixpoint ends_with_space (s : string) : bool :=
  match s with
  | EmptyString => false
  | String c EmptyString => is_space c
  | String _ s' => ends_with_space s'
  end.

(** The cells of a padded row that the mask marks with 1. *)
Definition attended (mask_row padded_row : Row) : Row :=
  (filter (λ mt, mt.1 = 1%Z) (zip mask_row padded_row)).*2.

(** [r.map(f)] on a result. *)
Definition map_result {A B} (f : A → B) (r : Result A) : Result B :=
  match r with
  | Ok a => Ok (f a)
  | Raise e => Raise e
  end.

End Cases.

(** ** More on the expansion *)

Lemma filter_replicate_all {A} (P : A → Prop) `{∀ x, Decision (P x)}
    (x : A) (n : nat) :
  P x → filter P (replicate n x) = replicate n x.
Proof.
  intros Hx. induction n as [|n IH]; [done|].
  simpl. by rewrite filter_cons, decide_True, IH.
Qed.

(** X1. The expanded sequence holds the placeholder id exactly [k] times
    the number of copies, where [k] counts the placeholders of the input and
    the number of copies is the image sequence length, or none when that is
    negative. *)
Theorem expansion_placeholder_count (cfg : LlavaConfig) (tokens : list Z) :
  length (filter (λ t, t = image_token_index cfg)
            (expand_image_tokens cfg tokens))
  = length (filter (λ t, t = image_token_index cfg) tokens)
    * Z.to_nat (image_seq_length cfg).
Proof.
  rewrite expand_image_tokens_bind.
  induction tokens as [|t tokens IH]; [done|].
  rewrite bind_cons, filter_app, length_app, IH, filter_cons.
  unfold expanded_token. case_decide as Ht.
  - rewrite filter_replicate_all by done.
    rewrite length_replicate. simpl. lia.
  - rewrite filter_cons, decide_False by done. simpl. lia.
Qed.

(** X2. The expansion leaves a sequence as it is when the placeholder does
    not occur in it, and also when the image sequence length is 1. *)
Theorem expansion_leaves_unchanged (cfg : LlavaConfig) (tokens : list Z) :
  image_token_index cfg ∉ tokens ∨ image_seq_length cfg = 1%Z →
  expand_image_tokens cfg tokens = tokens.
Proof.
  intros Hcase. rewrite expand_image_tokens_bind.
  induction tokens as [|t tokens IH]; [done|].
  rewrite bind_cons, IH.
  - unfold expanded_token. case_decide as Ht; [|done].
    destruct Hcase as [Hnot|Hone].
    + exfalso. apply Hnot. subst t. left.
    + rewrite Hone. by subst t.
  - destruct Hcase as [Hnot|Hone]; [left|by right].
    intros Hin. apply Hnot. by right.
Qed.

Lemma expansion_leaves_unchanged_witness :
  expand_image_tokens (config Toy.toy_llava) [97; 98; 99]%Z
  = [97; 98; 99]%Z.
Proof.
  apply (expansion_leaves_unchanged (config Toy.toy_llava) [97; 98; 99]%Z).
  left. simpl. rewrite !not_elem_of_cons. repeat split; try done.
  apply not_elem_of_nil.
Defined.

(** X3. With an image sequence length of zero or less the expansion drops
    every placeholder and keeps the other tokens: [[x] * n] is empty for
    such [n], it does not raise. *)
Theorem expansion_without_slots (cfg : LlavaConfig) (tokens : list Z) :
  (image_seq_length cfg ≤ 0)%Z →
  expand_image_tokens cfg tokens
  = filter (λ t, t ≠ image_token_index cfg) tokens.
Proof.
  intros Hn. rewrite expand_image_tokens_bind.
  induction tokens as [|t tokens IH]; [done|].
  rewrite bind_cons, IH, filter_cons. unfold expanded_token.
  case_decide as Ht.
  - rewrite decide_False by tauto.
    by replace (Z.to_nat (image_seq_length cfg)) with 0 by lia.
  - by rewrite decide_True.
Qed.

Lemma expansion_without_slots_witness :
  expand_image_tokens Cases.no_slots [73; 97; 73; 98]%Z = [97; 98]%Z.
Proof.
  apply (expansion_without_slots Cases.no_slots [73; 97; 73; 98]%Z). done.
Defined.

(** X4. The expansion brings in no token id of its own: every id of the
    expanded sequence occurs in the sequence it was made from. *)
Theorem expansion_no_new_token (cfg : LlavaConfig) (tokens : list Z) :
  Forall (λ t, t ∈ tokens) (expand_image_tokens cfg tokens).
Proof.
  rewrite expand_image_tokens_bind. apply Forall_forall. intros t Hin.
  apply list_elem_of_bind in Hin as (u & Ht & Hu).
  unfold expanded_token in Ht. case_decide as Hp.
  - apply elem_of_replicate in Ht as [-> _]. by subst u.
  - apply list_elem_of_singleton in Ht. by subst t.
Qed.

(** ** When preprocessing returns *)

Lemma expansion_fits (cfg : LlavaConfig) (tokens : list Z) :
  Forall (λ t, fits_int64 t = true) tokens →
  forallb fits_int64 (expand_image_tokens cfg tokens) = true.
Proof.
  intros Hfit. apply forallb_forall. intros t Hin.
  apply list_elem_of_In in Hin.
  rewrite expand_image_tokens_bind in Hin.
  apply list_elem_of_bind in Hin as (u & Ht & Hu).
  rewrite Forall_forall in Hfit.
  unfold expanded_token in Ht. case_decide as Hp.
  - apply elem_of_replicate in Ht as [-> _]. subst u. by apply Hfit.
  - apply list_elem_of_singleton in Ht. subst t. by apply Hfit.
Qed.

Lemma preprocess_of_pair (rt : Runtime) (self : JoyCaption)
    (image text : string) (p : Pixels) (row : Row) :
  preprocess_pair rt self (image, text) = Ok (p, row) →
  preprocess rt self image (Some text)
  = Ok ([p], [row], [replicate (length row) 1%Z]).
Proof.
  intros H. apply preprocess_pair_inv in H as (Hp & Hrow & Hfit).
  unfold preprocess. rewrite Hp. simpl. rewrite Hrow. simpl.
  unfold tensor_long. rewrite Hfit. simpl.
  unfold ones_like, unsqueeze0. simpl. by rewrite map_const_replicate.
Qed.

(** X5. [preprocess] returns whenever the image opens, the tokenizer renders
    and encodes the conversation, and the encoded ids are 64-bit integers:
    the expansion cannot push an id out of range, so building the tensor
    does not fail.  The result is the image as a batch of one, the expanded
    row, and a row of ones of its length. *)
Theorem preprocess_returns (rt : Runtime) (self : JoyCaption)
    (image : string) (prompt : option string) (px : Pixels)
    (convo_string : string) (convo_tokens : list Z) :
  image_pipeline rt image (dtype self) = Ok px →
  apply_chat_template (tokenizer self) (conversation prompt) false true
    = Ok convo_string →
  encode (tokenizer self) convo_string false false = Ok convo_tokens →
  Forall (λ t, fits_int64 t = true) convo_tokens →
  preprocess rt self image prompt
  = Ok ([px],
        [expand_image_tokens (config (model self)) convo_tokens],
        [replicate
           (length (expand_image_tokens (config (model self)) convo_tokens))
           1%Z]).
Proof.
  intros Hpx Htemplate Hencode Hfit. unfold preprocess.
  rewrite Hpx. simpl.
  rewrite (render_tokens_Ok _ _ _ _ Htemplate Hencode). simpl.
  unfold tensor_long. rewrite (expansion_fits _ _ Hfit). simpl.
  unfold ones_like, unsqueeze0. simpl. by rewrite map_const_replicate.
Qed.

Lemma preprocess_returns_witness :
  Adapter.preprocess Toy.toy_runtime Toy.toy_self "cat.jpg" (Some "ab")
  = Ok ([1%N], [[73; 73; 73; 97; 98]%Z], [[1; 1; 1; 1; 1]%Z]).
Proof.
  apply (preprocess_returns Toy.toy_runtime Toy.toy_self "cat.jpg"
           (Some "ab") 1%N "Iab" [73; 97; 98]%Z);
    [reflexivity | reflexivity | reflexivity | by repeat constructor].
Defined.

(** ** More on batches *)




(** X7. With no image or no prompt there is no pair, and
    [preprocess_batch] raises the [ValueError] of [max] over an empty
    sequence; no image is opened and no prompt rendered on the way. *)
Theorem empty_batch_raises (rt : Runtime) (self : JoyCaption)
    (images prompts : list string) :
  images = [] ∨ prompts = [] →
  ∃ msg, preprocess_batch rt self images prompts = Raise (ValueError msg).
Proof.
  intros Hempty.
  assert (zip images prompts = []) as Hzip.
  { destruct Hempty as [-> | ->]; [done | by destruct images]. }
  unfold preprocess_batch. rewrite Hzip. simpl. by eexists.
Qed.

(** Image paths that would not open, and no prompt. *)
Lemma empty_batch_raises_witness :
  ∃ msg,
    Adapter.preprocess_batch Toy.toy_runtime Toy.toy_self [""; ""] []
    = Raise (ValueError msg).
Proof.
  apply (empty_batch_raises Toy.toy_runtime Toy.toy_self [""; ""] []).
  by right.
Defined.

Lemma preprocess_batch_single (rt : Runtime) (self : JoyCaption)
    (image prompt : string) :
  preprocess_batch rt self [image] [prompt]
  = preprocess rt self image (Some prompt).
Proof.
  destruct (preprocess_pair rt self (image, prompt)) as [[p row]|e] eqn:Hpair.
  - rewrite (preprocess_of_pair _ _ _ _ _ _ Hpair).
    rewrite (preprocess_batch_Ok rt self [image] [prompt] [(p, row)]);
      [|by simpl; rewrite Hpair | done].
    simpl. unfold padded_row, mask_row.
    rewrite Nat.max_0_r, Nat.sub_diag. simpl. by rewrite !app_nil_r.
  - unfold preprocess_batch. simpl. rewrite Hpair. simpl.
    revert Hpair. unfold preprocess_pair, preprocess. simpl.
    destruct (image_pipeline _ _ _) as [p|e1]; simpl; [|by intros [= ->]].
    destruct (render_tokens _ _) as [row|e2]; simpl; [|by intros [= ->]].
    destruct (tensor_long row) as [row'|e3]; simpl; [done | by intros [= ->]].
Qed.

(** X8. A batch of one is the single example: [preprocess_batch] on one
    image and one prompt returns what [preprocess] returns on them (with
    no filler and a mask of ones), and raises what it raises. *)
Theorem batch_of_one_is_single (rt : Runtime) (self : JoyCaption)
    (image prompt : string) :
  preprocess_batch rt self [image] [prompt]
  = preprocess rt self image (Some prompt)
  ∧ ∀ px ids mask,
      preprocess_batch rt self [image] [prompt] = Ok (px, ids, mask) →
      mask = ones_like ids ∧ length ids = 1.
Proof.
  split; [apply preprocess_batch_single|].
  intros px ids mask H. rewrite preprocess_batch_single in H.
  apply preprocess_inv in H as (p & row & _ & _ & _ & _ & -> & ->).
  split; [|done]. unfold ones_like. simpl. by rewrite map_const_replicate.
Qed.

Lemma attended_zeros (k : nat) (cells : Row) :
  Cases.attended (replicate k 0%Z) cells = [].
Proof.
  unfold Cases.attended. revert cells.
  induction k as [|k IH]; intros [|c cells]; try done.
  cbn [replicate zip_with]. rewrite filter_cons, decide_False by done.
  apply IH.
Qed.

Lemma attended_ones (ids : Row) (mask_rest cell_rest : Row) :
  Cases.attended (replicate (length ids) 1%Z ++ mask_rest) (ids ++ cell_rest)
  = ids ++ Cases.attended mask_rest cell_rest.
Proof.
  unfold Cases.attended. induction ids as [|t ids IH]; [done|].
  cbn [length replicate app zip_with].
  rewrite filter_cons, decide_True by done.
  rewrite fmap_cons. simpl. by rewrite IH.
Qed.

Lemma attended_padded (width : nat) (ids : Row) :
  Cases.attended (mask_row width ids) (padded_row width ids) = ids.
Proof.
  unfold mask_row, padded_row.
  by rewrite attended_ones, attended_zeros, app_nil_r.
Qed.

Lemma attended_rows (width : nat) (rows : list Row) :
  zip_with Cases.attended (mask_row width <$> rows)
           (padded_row width <$> rows)
  = rows.
Proof.
  induction rows as [|r rows IH]; [done|].
  rewrite !fmap_cons. simpl. by rewrite attended_padded, IH.
Qed.

Lemma mask_row_sum (width : nat) (ids : Row) :
  foldr Z.add 0%Z (mask_row width ids) = Z.of_nat (length ids).
Proof.
  unfold mask_row. rewrite foldr_app.
  assert (∀ k, foldr Z.add 0%Z (replicate k 0%Z) = 0%Z) as ->
    by (intros k; induction k as [|k IHk]; simpl; lia).
  induction (length ids) as [|n IHn]; simpl; lia.
Qed.

Lemma mask_rows_sum (width : nat) (rows : list Row) :
  (λ m, foldr Z.add 0%Z m) <$> (mask_row width <$> rows)
  = (λ r, Z.of_nat (length r)) <$> rows.
Proof.
  induction rows as [|r rows IH]; [done|].
  rewrite !fmap_cons, IH. f_equal. apply mask_row_sum.
Qed.

(** X9. The mask tells the tokens from the filler.  In what
    [preprocess_batch] returns, the cells of row [i] that the mask marks
    with 1 are exactly example [i]'s own tokens, in order, whatever ids
    they are (0 included); and the ones of mask row [i] add up to the
    example's length. *)
Theorem mask_selects_own_tokens (rt : Runtime) (self : JoyCaption)
    (images prompts : list string) (px : list Pixels) (ids mask : Matrix) :
  preprocess_batch rt self images prompts = Ok (px, ids, mask) →
  ∃ processed : list (Pixels * Row),
    mapM (preprocess_pair rt self) (zip images prompts) = Ok processed
    ∧ zip_with Cases.attended mask ids = processed.*2
    ∧ (λ m, foldr Z.add 0%Z m) <$> mask
      = (λ r, Z.of_nat (length r)) <$> processed.*2.
Proof.
  intros H. apply preprocess_batch_inv in H
    as (processed & Hdone & _ & _ & -> & ->).
  exists processed. split; [done|].
  split; [apply attended_rows | apply mask_rows_sum].
Qed.

Lemma mask_selects_own_tokens_witness :
  ∃ processed : list (Pixels * Row),
    mapM (Adapter.preprocess_pair Toy.toy_runtime Toy.toy_self)
         (zip ["a.jpg"; "b.jpg"] ["a"; "abc"]) = Ok processed
    ∧ zip_with Cases.attended
        [[1; 1; 1; 1; 0; 0]; [1; 1; 1; 1; 1; 1]]%Z
        [[73; 73; 73; 97; 0; 0]; [73; 73; 73; 97; 98; 99]]%Z
      = processed.*2
    ∧ (λ m, foldr Z.add 0%Z m)
        <$> [[1; 1; 1; 1; 0; 0]; [1; 1; 1; 1; 1; 1]]%Z
      = (λ r, Z.of_nat (length r)) <$> processed.*2.
Proof.
  apply (mask_selects_own_tokens Toy.toy_runtime Toy.toy_self
           ["a.jpg"; "b.jpg"] ["a"; "abc"] [1%N; 1%N]).
  reflexivity.
Defined.

Lemma max_list_same (len : nat) (rows : list Row) :
  rows ≠ [] →
  Forall (λ r, length r = len) rows →
  max_list (length <$> rows) = len.
Proof.
  intros Hne Hall. induction Hall as [|r rows Hr Hrows IH]; [done|].
  change (max_list (length <$> r :: rows))
    with (length r `max` max_list (length <$> rows)).
  destruct rows as [|r' rows']; [simpl; lia|].
  rewrite IH by done. lia.
Qed.

(** X10. Examples of one length are not padded.  When every pair goes
    through the per-example steps and all rows have the same length,
    [preprocess_batch] returns the rows as they are and a mask of ones
    only. *)
Theorem equal_lengths_are_not_padded (rt : Runtime) (self : JoyCaption)
    (images prompts : list string) (processed : list (Pixels * Row))
    (len : nat) :
  mapM (preprocess_pair rt self) (zip images prompts) = Ok processed →
  processed ≠ [] →
  Forall (λ r, length r = len) processed.*2 →
  preprocess_batch rt self images prompts
  = Ok (processed.*1, processed.*2,
        (λ _, replicate len 1%Z) <$> processed.*2).
Proof.
  intros Hdone Hne Hlen.
  rewrite (preprocess_batch_Ok _ _ _ _ _ Hdone Hne).
  assert (max_list (length <$> processed.*2) = len) as ->.
  { apply max_list_same; [by destruct processed | done]. }
  assert (padded_row len <$> processed.*2 = processed.*2) as ->.
  { clear Hdone Hne. induction Hlen as [|r rows Hr _ IH]; [done|].
    rewrite fmap_cons, IH. f_equal. unfold padded_row.
    by rewrite Hr, Nat.sub_diag, app_nil_r. }
  assert (mask_row len <$> processed.*2
          = (λ _, replicate len 1%Z) <$> processed.*2) as ->; [|done].
  clear Hdone Hne. induction Hlen as [|r rows Hr _ IH]; [done|].
  rewrite !fmap_cons, IH. f_equal. unfold mask_row.
  by rewrite Hr, Nat.sub_diag, app_nil_r.
Qed.

Lemma equal_lengths_are_not_padded_witness :
  Adapter.preprocess_batch Toy.toy_runtime Toy.toy_self
    ["a.jpg"; "b.jpg"] ["ab"; "cd"]
  = Ok ([1%N; 1%N],
        [[73; 73; 73; 97; 98]; [73; 73; 73; 99; 100]]%Z,
        [[1; 1; 1; 1; 1]; [1; 1; 1; 1; 1]]%Z).
Proof.
  apply (equal_lengths_are_not_padded Toy.toy_runtime Toy.toy_self
           ["a.jpg"; "b.jpg"] ["ab"; "cd"]
           [(1%N, [73; 73; 73; 97; 98]%Z); (1%N, [73; 73; 73; 99; 100]%Z)]
           5);
    [reflexivity | done | by repeat constructor].
Defined.

(** X11. The batched path agrees with the single path, example by example.
    In what [preprocess_batch] returns, for every position [i] within the
    shorter of the two lists, [preprocess] on image [i] and prompt [i]
    returns image [i] of the batch as a batch of one, and the token row
    that row [i] of the batch starts with, the rest of row [i] being
    filler. *)
Theorem batch_agrees_with_single (rt : Runtime) (self : JoyCaption)
    (images prompts : list string) (px : list Pixels) (ids mask : Matrix)
    (i : nat) (image prompt : string) :
  preprocess_batch rt self images prompts = Ok (px, ids, mask) →
  images !! i = Some image →
  prompts !! i = Some prompt →
  ∃ (p : Pixels) (row padded : Row),
    preprocess rt self image (Some prompt)
    = Ok ([p], [row], [replicate (length row) 1%Z])
    ∧ px !! i = Some p
    ∧ ids !! i = Some padded
    ∧ padded = row ++ replicate (length padded - length row) 0%Z.
Proof.
  intros H Himage Hprompt.
  apply preprocess_batch_inv in H as (processed & Hdone & _ & -> & -> & _).
  apply mapM_Forall2 in Hdone.
  assert (zip images prompts !! i = Some (image, prompt)) as Hpair.
  { rewrite lookup_zip_with, Himage. simpl. by rewrite Hprompt. }
  destruct (Forall2_lookup_l _ _ _ _ _ Hdone Hpair) as ([p row] & Hi & Hok).
  exists p, row, (padded_row (max_list (length <$> processed.*2)) row).
  split; [by apply preprocess_of_pair|].
  split; [by rewrite list_lookup_fmap, Hi|].
  split; [by rewrite !list_lookup_fmap, Hi|].
  assert (length row ≤ max_list (length <$> processed.*2)) as Hle.
  { pose proof (rows_le_max processed.*2) as Hall.
    rewrite Forall_forall in Hall. apply Hall.
    apply list_elem_of_lookup. exists i. by rewrite list_lookup_fmap, Hi. }
  rewrite padded_row_length by done. done.
Qed.

Lemma batch_agrees_with_single_witness :
  ∃ (p : Pixels) (row padded : Row),
    Adapter.preprocess Toy.toy_runtime Toy.toy_self "a.jpg" (Some "a")
    = Ok ([p], [row], [replicate (length row) 1%Z])
    ∧ [1%N; 1%N] !! 0 = Some p
    ∧ [[73; 73; 73; 97; 0; 0]; [73; 73; 73; 97; 98; 99]]%Z !! 0
      = Some padded
    ∧ padded = row ++ replicate (length padded - length row) 0%Z.
Proof.
  apply (batch_agrees_with_single Toy.toy_runtime Toy.toy_self
           ["a.jpg"; "b.jpg"; "c.jpg"] ["a"; "abc"] [1%N; 1%N]
           [[73; 73; 73; 97; 0; 0]; [73; 73; 73; 97; 98; 99]]%Z
           [[1; 1; 1; 1; 0; 0]; [1; 1; 1; 1; 1; 1]]%Z
           0 "a.jpg" "a");
    reflexivity.
Defined.

(** ** More on inference *)

(** X12. A batch of one pair is one inference.  When the generation answers
    a one-row input with one row, [infer_batch] on one image and one prompt
    makes the generation call [infer] makes on them, leaves the same count
    and the same log, and returns the caption of [infer] as a list of one;
    when [infer] raises, it raises the same. *)
Theorem batch_of_one_is_infer (rt : Runtime) (self : JoyCaption)
    (image prompt : string) (kw : gmap string value) (w : World) :
  (∀ kwf out,
     (∃ row, kwf !! "input_ids" = Some (VLong [row])) →
     generate (model self) kwf (length (generate_calls w)) = Ok out →
     length out = 1) →
  infer_batch rt self [image] [prompt] kw w
  = (Cases.map_result (λ caption, [caption])
       (infer rt self image (Some prompt) kw w).1,
     (infer rt self image (Some prompt) kw w).2).
Proof.
  intros Hone. rewrite infer_batch_run, infer_run, preprocess_batch_single.
  destruct (execution_scope _ _ _) as [[]|e]; [|done].
  destruct (preprocess _ _ _ _) as [[[px ids] mask]|e] eqn:Hpre; [|done].
  apply preprocess_inv in Hpre as (p & row & _ & _ & _ & -> & -> & ->).
  destruct (device_ready _ _) as [[]|e]; simpl; [|done].
  destruct (call_keywords _ _) as [kwf|e] eqn:Hkw; [|done].
  destruct (generate _ _ _) as [out|e] eqn:Hgen; [|done].
  apply merged_keywords_lookup in Hkw as (_ & Hids & _).
  assert (length out = 1) as Hlen by (eapply Hone; [by exists row | done]).
  destruct out as [|g [|g' out]]; try discriminate Hlen.
  simpl. by destruct (caption_of self (length row) g) as [c|e].
Qed.

Lemma batch_of_one_is_infer_witness :
  Adapter.infer_batch Toy.toy_runtime Toy.echo_self ["cat.jpg"] ["ab"] ∅
    Toy.w0
  = (Cases.map_result (λ caption, [caption])
       (Adapter.infer Toy.toy_runtime Toy.echo_self "cat.jpg" (Some "ab") ∅
          Toy.w0).1,
     (Adapter.infer Toy.toy_runtime Toy.echo_self "cat.jpg" (Some "ab") ∅
        Toy.w0).2).
Proof.
  apply (batch_of_one_is_infer Toy.toy_runtime Toy.echo_self "cat.jpg" "ab"
           ∅ Toy.w0).
  intros kwf out [row Hrow] Hgen. simpl in Hgen. rewrite Hrow in Hgen.
  by injection Hgen as <-.
Defined.

(** X13. What reaches the generation call of [infer].  When [infer]
    returns, its one generation call received, under [input_ids],
    [pixel_values] and [attention_mask], exactly what [preprocess]
    returned, and every option of the caller other than [max_new_tokens]
    under the caller's key with the caller's value; the caller had given
    none of the keywords the adapter writes. *)
Theorem caller_options_pass_through (rt : Runtime) (self : JoyCaption)
    (image : string) (prompt : option string) (kw : gmap string value)
    (w : World) (caption : string) :
  (infer rt self image prompt kw w).1 = Ok caption →
  ∃ (kwf : gmap string value) (px : list Pixels) (ids mask : Matrix),
    preprocess rt self image prompt = Ok (px, ids, mask)
    ∧ generate_calls (infer rt self image prompt kw w).2
      = generate_calls w ++ [kwf]
    ∧ kwf !! "input_ids" = Some (VLong ids)
    ∧ kwf !! "pixel_values" = Some (VPixels px)
    ∧ kwf !! "attention_mask" = Some (VLong mask)
    ∧ (∀ k, k ∉ reserved_keywords → k ≠ "max_new_tokens" →
            kwf !! k = kw !! k)
    ∧ Forall (λ k, kw !! k = None) reserved_keywords.
Proof.
  rewrite infer_run.
  destruct (execution_scope _ _ _) as [[]|e]; [|done].
  destruct (preprocess _ _ _ _) as [[[px ids] mask]|e]; [|done].
  destruct (device_ready _ _) as [[]|e]; simpl; [|done].
  destruct (call_keywords _ _) as [kwf|e] eqn:Hkw; [|done].
  destruct (mbind _ (generate _ _ _)) as [c|e]; [|done].
  intros _. exists kwf, px, ids, mask.
  pose proof (call_keywords_inv _ _ _ Hkw) as [_ Hfree].
  apply merged_keywords_lookup in Hkw as (_ & Hids & Hpx & Hmask & Hrest).
  split; [done|]. split; [by read_logs|].
  repeat (split; [done|]).
  apply Forall_forall. intros k Hk.
  assert (∃ v, (k, v) ∈ written_keywords ids px mask) as [v Hv].
  { unfold reserved_keywords in Hk. unfold written_keywords.
    repeat (apply elem_of_cons in Hk as [->|Hk];
            [eexists; repeat first [left | right]|]).
    by apply elem_of_nil in Hk. }
  specialize (Hfree k v Hv).
  rewrite default_max_new_tokens_lookup in Hfree.
  case_decide as Hmax; [|done]. subst k.
  unfold reserved_keywords in Hk. exfalso. revert Hk.
  rewrite !elem_of_cons, elem_of_nil. intros Hk.
  repeat (destruct Hk as [Hk|Hk]; [done|]). done.
Qed.

Lemma caller_options_pass_through_witness :
  ∃ (kwf : gmap string value) (px : list Pixels) (ids mask : Matrix),
    Adapter.preprocess Toy.toy_runtime Toy.toy_self "cat.jpg" (Some "ab")
    = Ok (px, ids, mask)
    ∧ generate_calls
        (Adapter.infer Toy.toy_runtime Toy.toy_self "cat.jpg" (Some "ab")
           {[ "temperature" := VInt 2 ]} Toy.w0).2
      = generate_calls Toy.w0 ++ [kwf]
    ∧ kwf !! "input_ids" = Some (VLong ids)
    ∧ kwf !! "temperature" = Some (VInt 2).
Proof.
  destruct (caller_options_pass_through Toy.toy_runtime Toy.toy_self
              "cat.jpg" (Some "ab") {[ "temperature" := VInt 2 ]} Toy.w0
              "ok")
    as (kwf & px & ids & mask & Hpre & Hcalls & Hids & _ & _ & Hrest & _);
    [reflexivity|].
  exists kwf, px, ids, mask.
  split; [exact Hpre|]. split; [exact Hcalls|]. split; [exact Hids|].
  rewrite Hrest; [reflexivity | | done].
  unfold reserved_keywords. rewrite !not_elem_of_cons.
  repeat split; try done. apply not_elem_of_nil.
Defined.




(** X15. [infer] cuts the generated row at the exact length of its own
    prompt.  When [infer] returns a caption, the prompt was rendered and
    expanded to some row of [L] tokens, the generation returned at least
    one row, and the caption is the stripped decoding of the first returned
    row without its first [L] tokens; rows after the first play no part. *)
Theorem infer_trims_own_prompt (rt : Runtime) (self : JoyCaption)
    (image : string) (prompt : option string) (kw : gmap string value)
    (w : World) (caption : string) :
  (infer rt self image prompt kw w).1 = Ok caption →
  ∃ (prompt_tokens : Row) (kwf : gmap string value) (generated : Row)
    (others : Matrix) (s : string),
    render_tokens self prompt = Ok prompt_tokens
    ∧ kwf !! "input_ids" = Some (VLong [prompt_tokens])
    ∧ generate (model self) kwf (length (generate_calls w))
      = Ok (generated :: others)
    ∧ decode (tokenizer self) (drop (length prompt_tokens) generated)
        true false = Ok s
    ∧ caption = strip s.
Proof.
  rewrite infer_run.
  destruct (execution_scope _ _ _) as [[]|e]; [|done].
  destruct (preprocess _ _ _ _) as [[[px ids] mask]|e] eqn:Hpre; [|done].
  apply preprocess_inv in Hpre as (p & row & _ & Hrow & _ & -> & -> & ->).
  destruct (device_ready _ _) as [[]|e]; simpl; [|done].
  destruct (call_keywords _ _) as [kwf|e] eqn:Hkw; [|done].
  destruct (generate _ _ _) as [out|e] eqn:Hgen; [|done].
  destruct out as [|g others]; [done|]. simpl.
  destruct (caption_of self (length row) g) as [c|e] eqn:Hcap; [|done].
  simpl. intros [= ->].
  apply merged_keywords_lookup in Hkw as (_ & Hids & _).
  apply caption_of_inv in Hcap as (s & Hs & ->).
  by exists row, kwf, g, others, s.
Qed.

Lemma infer_trims_own_prompt_witness :
  ∃ (prompt_tokens : Row) (kwf : gmap string value) (generated : Row)
    (others : Matrix) (s : string),
    render_tokens Toy.toy_self (Some "ab") = Ok prompt_tokens
    ∧ kwf !! "input_ids" = Some (VLong [prompt_tokens])
    ∧ generate Toy.toy_llava kwf (length (generate_calls Toy.w0))
      = Ok (generated :: others)
    ∧ decode Toy.toy_tokenizer (drop (length prompt_tokens) generated)
        true false = Ok s
    ∧ "ok" = strip s.
Proof.
  apply (infer_trims_own_prompt Toy.toy_runtime Toy.toy_self "cat.jpg"
           (Some "ab") ∅ Toy.w0 "ok").
  reflexivity.
Defined.

(** ** Captions are stripped *)

Lemma lstrip_no_leading (s : string) :
  Cases.starts_with_space (lstrip s) = false.
Proof.
  induction s as [|c s IH]; [done|]. simpl.
  destruct (is_space c) eqn:Hc; [done|]. simpl. by rewrite Hc.
Qed.

Lemma rstrip_no_trailing (s : string) :
  Cases.ends_with_space (rstrip s) = false.
Proof.
  induction s as [|c s IH]; [done|]. simpl.
  destruct (rstrip s) as [|c' r] eqn:Hr.
  - destruct (is_space c) eqn:Hc; [done|]. simpl. by rewrite Hc.
  - exact IH.
Qed.

Lemma rstrip_keeps_leading (s : string) :
  Cases.starts_with_space s = false →
  Cases.starts_with_space (rstrip s) = false.
Proof.
  destruct s as [|c s]; [done|]. simpl. intros Hc.
  destruct (rstrip s) as [|c' r]; [by rewrite Hc; simpl|done].
Qed.

Lemma lstrip_fixed (s : string) :
  Cases.starts_with_space s = false → lstrip s = s.
Proof. destruct s as [|c s]; [done|]. simpl. by intros ->. Qed.

Lemma rstrip_cons (c : ascii) (s : string) :
  rstrip (String c s)
  = match rstrip s with
    | EmptyString => if is_space c then EmptyString else String c EmptyString
    | r => String c r
    end.
Proof. done. Qed.

Lemma rstrip_fixed (s : string) :
  Cases.ends_with_space s = false → rstrip s = s.
Proof.
  induction s as [|c s IH]; [done|].
  destruct s as [|c' s'].
  - simpl. by intros ->.
  - intros Hend.
    change (Cases.ends_with_space (String c' s') = false) in Hend.
    by rewrite rstrip_cons, (IH Hend).
Qed.

Lemma strip_is_stripped (s : string) :
  strip (strip s) = strip s
  ∧ Cases.starts_with_space (strip s) = false
  ∧ Cases.ends_with_space (strip s) = false.
Proof.
  assert (Cases.starts_with_space (strip s) = false) as Hstart
    by (apply rstrip_keeps_leading, lstrip_no_leading).
  assert (Cases.ends_with_space (strip s) = false) as Hend
    by apply rstrip_no_trailing.
  split; [|done]. unfold strip at 1.
  by rewrite (lstrip_fixed _ Hstart), (rstrip_fixed _ Hend).
Qed.

(** X16. What [infer] and [infer_batch] return is stripped: a caption has
    no whitespace character at its start or at its end, and stripping it
    again changes nothing. *)
Theorem captions_are_stripped (rt : Runtime) (self : JoyCaption)
    (image : string) (prompt : option string) (images prompts : list string)
    (kw : gmap string value) (w : World) :
  (∀ caption,
     (infer rt self image prompt kw w).1 = Ok caption →
     strip caption = caption
     ∧ Cases.starts_with_space caption = false
     ∧ Cases.ends_with_space caption = false)
  ∧ (∀ captions,
       (infer_batch rt self images prompts kw w).1 = Ok captions →
       Forall (λ caption,
                 strip caption = caption
                 ∧ Cases.starts_with_space caption = false
                 ∧ Cases.ends_with_space caption = false)
              captions).
Proof.
  split.
  - intros caption. rewrite infer_run.
    destruct (execution_scope _ _ _) as [[]|e]; [|done].
    destruct (preprocess _ _ _ _) as [[[px ids] mask]|e]; [|done].
    destruct (device_ready _ _) as [[]|e]; simpl; [|done].
    destruct (call_keywords _ _) as [kwf|e]; [|done].
    destruct (generate _ _ _) as [out|e]; [|done].
    destruct out as [|g others]; [done|]. simpl.
    destruct (caption_of self (shape1 ids) g) as [c|e] eqn:Hcap; [|done].
    simpl. intros [= ->].
    apply caption_of_inv in Hcap as (s & _ & ->). apply strip_is_stripped.
  - intros captions. rewrite infer_batch_run.
    destruct (execution_scope _ _ _) as [[]|e]; [|done].
    destruct (preprocess_batch _ _ _ _) as [[[px ids] mask]|e]; [|done].
    destruct (device_ready _ _) as [[]|e]; simpl; [|done].
    destruct (call_keywords _ _) as [kwf|e]; [|done].
    destruct (generate _ _ _) as [out|e]; [|done]. simpl.
    destruct (mapM _ out) as [cs|e] eqn:Hcap; [|done].
    simpl. intros [= ->].
    apply mapM_Forall2 in Hcap.
    induction Hcap as [|g c out cs Hc _ IH]; constructor; [|done].
    apply caption_of_inv in Hc as (s & _ & ->). apply strip_is_stripped.
Qed.

Lemma captions_are_stripped_witness :
  strip "ok" = "ok"
  ∧ Cases.starts_with_space "ok" = false
  ∧ Cases.ends_with_space "ok" = false.
Proof.
  destruct (captions_are_stripped Toy.toy_runtime Toy.toy_self "cat.jpg"
              (Some "ab") [] [] ∅ Toy.w0) as [Hinfer _].
  apply Hinfer. reflexivity.
Defined.

(** ** Loading failures *)

(** X17. A failure of a loader fails the construction, in the order of
    [load_model].  With an accepted dtype: when the tokenizer does not load,
    [__init__] raises the loader's exception and the model weights are
    never asked for; when the tokenizer loads and the weights do not,
    [__init__] raises that exception, after both loaders were called with
    the model id and the model loader with the caller's options. *)
Theorem loader_failure_fails_construction (rt : Runtime)
    (model_id device dtype : string) (kwargs : gmap string value)
    (w : World) (e : exn) :
  is_Some (dtype_map !! dtype) →
  (tokenizer_from_pretrained rt model_id true = Raise e →
   (__init__ rt model_id device dtype kwargs w).1 = Raise e
   ∧ events (__init__ rt model_id device dtype kwargs w).2
     = events w ++ [EvLoadTokenizer model_id])
  ∧ (is_Ok (tokenizer_from_pretrained rt model_id true) →
     llava_from_pretrained rt model_id kwargs = Raise e →
     (__init__ rt model_id device dtype kwargs w).1 = Raise e
     ∧ events (__init__ rt model_id device dtype kwargs w).2
       = events w ++ [EvLoadTokenizer model_id;
                      EvLoadModel model_id kwargs]).
Proof.
  intros [dt Hdt]. unfold __init__, load_model. rewrite Hdt. split.
  - intros Htok. run_M. by rewrite Htok.
  - intros Htok Hm. run_M.
    destruct (tokenizer_from_pretrained rt model_id true) as [tok|e'];
      [|done].
    simpl. rewrite Hm. simpl. by rewrite <- app_assoc.
Qed.

Lemma loader_failure_fails_construction_witness :
  ((Adapter.__init__ Cases.no_tokenizer "m" "cpu" "float16" ∅ Toy.w0).1
   = Raise (ExternalError "OSError" "m")
   ∧ events (Adapter.__init__ Cases.no_tokenizer "m" "cpu" "float16" ∅
               Toy.w0).2
     = [EvLoadTokenizer "m"])
  ∧ ((Adapter.__init__ Cases.no_weights "m" "cpu" "float16" ∅ Toy.w0).1
     = Raise (ExternalError "OSError" "m")
     ∧ events (Adapter.__init__ Cases.no_weights "m" "cpu" "float16" ∅
                 Toy.w0).2
       = [EvLoadTokenizer "m"; EvLoadModel "m" ∅]).
Proof.
  split.
  - destruct (loader_failure_fails_construction Cases.no_tokenizer "m" "cpu"
                "float16" ∅ Toy.w0 (ExternalError "OSError" "m"))
      as [Htok _]; [by eexists|].
    by apply Htok.
  - destruct (loader_failure_fails_construction Cases.no_weights "m" "cpu"
                "float16" ∅ Toy.w0 (ExternalError "OSError" "m"))
      as [_ Hweights]; [by eexists|].
    by apply Hweights.
Defined.
